(** * SEO query analyzer: the matching engine of [utils/seo_analyzer.py]
      and the content resolver of [utils/content_extractor.py].

    Modelling conventions.
    - A Python [str] is a Rocq [string]; a character stands for the code
      point of the same number, so the model covers text whose code points
      lie below 256 (Latin-1).  [is_space] and [lower_char] are Python's
      [str.isspace] and [str.lower] on that range.
    - A cell of a pandas row is a dynamically typed value, [pyval].
    - A [dict] is a [gmap]; a DataFrame is the list of its rows.
    - Python's floats in [calculate_metrics] are binary64 numbers, Rocq's
      primitive floats, with the operations of the processor. *)

From Stdlib Require Import ZArith String Ascii List.
From Stdlib Require Import Sorted Permutation Lia.
From Corelib Require PrimFloat Uint63Axioms.
Import PrimFloat.PrimFloatNotations.
From stdpp Require Import gmap strings list fin_maps pretty.



(* ===================================================================== *)
(** ** Python strings                                                     *)
(* ===================================================================== *)

Module PyStr.

(** [str.isspace] for one character: TAB, LF, VT, FF, CR, the separators
    FS, GS, RS, US, space, NEL (U+0085) and NBSP (U+00A0). *)
Definition is_space (c : ascii) : bool :=
  let n := N_of_ascii c in
  ((9 <=? n) && (n <=? 13) || (28 <=? n) && (n <=? 32)
   || (n =? 133) || (n =? 160))%N.

(** [str.lower] for one character: A-Z, and U+00C0..U+00DE except the
    multiplication sign U+00D7, move up by 32. *)
Definition lower_char (c : ascii) : ascii :=
  let n := N_of_ascii c in
  if ((65 <=? n) && (n <=? 90)
      || (192 <=? n) && (n <=? 222) && negb (n =? 215))%N
  then ascii_of_N (n + 32) else c.

Fixpoint lower (s : string) : string :=
  match s with
  | EmptyString => EmptyString
  | String c s' => String (lower_char c) (lower s')
  end.

Definition is_empty (s : string) : bool :=
  match s with EmptyString => true | String _ _ => false end.

Fixpoint lstrip (s : string) : string :=
  match s with
  | EmptyString => EmptyString
  | String c s' => if is_space c then lstrip s' else s
  end.

Fixpoint rstrip (s : string) : string :=
  match s with
  | EmptyString => EmptyString
  | String c s' =>
      let r := rstrip s' in
      if is_space c && is_empty r then EmptyString else String c r
  end.

(** [s.strip()] *)
Definition strip (s : string) : string := rstrip (lstrip s).

(** [s.split()]: scan left to right; [w] is the word being read. *)
Fixpoint split_go (w : string) (s : string) : list string :=
  match s with
  | EmptyString => if is_empty w then [] else [w]
  | String c s' =>
      if is_space c
      then (if is_empty w then split_go EmptyString s'
            else w :: split_go EmptyString s')
      else split_go (w +:+ String c EmptyString) s'
  end.

Definition split (s : string) : list string := split_go EmptyString s.

(** [sep.join(ws)] *)
Fixpoint join (sep : string) (ws : list string) : string :=
  match ws with
  | [] => EmptyString
  | [w] => w
  | w :: ws' => w +:+ sep +:+ join sep ws'
  end.

Fixpoint startswith (p s : string) : bool :=
  match p, s with
  | EmptyString, _ => true
  | String _ _, EmptyString => false
  | String a p', String b s' => Ascii.eqb a b && startswith p' s'
  end.

(** [q in t] on strings *)
Fixpoint contains (q t : string) : bool :=
  startswith q t ||
  match t with
  | EmptyString => false
  | String _ t' => contains q t'
  end.

End PyStr.

Import PyStr.

(* ===================================================================== *)
(** ** Dynamically typed cell values                                      *)
(* ===================================================================== *)

(** A float is NaN (the marker pandas uses for a missing cell) or a number
    carried with the text Python's [str] prints for it. *)
Inductive pyfloat :=
| FNaN
| FNum (text : string).

(** [PObj] is any value that is none of [None], [str], [int], [bool],
    [float] (a [Decimal], a date, a numpy integer); it carries its [str]
    text and pandas does not regard it as missing. *)
Inductive pyval :=
| PNone
| PStr (s : string)
| PInt (z : Z)
| PBool (b : bool)
| PFloat (f : pyfloat)
| PObj (text : string).

(** [str(v)] *)
Definition py_str (v : pyval) : string :=
  match v with
  | PNone => "None"
  | PStr s => s
  | PInt z => pretty z
  | PBool true => "True"
  | PBool false => "False"
  | PFloat FNaN => "nan"
  | PFloat (FNum t) => t
  | PObj t => t
  end.

(** [isinstance(v, (str, int, float))]; [bool] is a subclass of [int]. *)
Definition is_scalar (v : pyval) : bool :=
  match v with
  | PStr _ | PInt _ | PBool _ | PFloat _ => true
  | PNone | PObj _ => false
  end.

(** [pd.notna(v)] *)
Definition notna (v : pyval) : bool :=
  match v with
  | PNone | PFloat FNaN => false
  | _ => true
  end.

(** [SEOScorecardAnalyzer.clean_text] *)
Definition clean_text (text : pyval) : string :=
  if negb (is_scalar text) then ""
  else
    let text := lower (strip (py_str text)) in
    join " " (split text).

(** A word: what [split] returns, non-empty and free of whitespace. *)
Fixpoint has_space (s : string) : bool :=
  match s with
  | EmptyString => false
  | String c s' => is_space c || has_space s'
  end.

Definition is_word (w : string) : Prop := is_empty w = false ∧ has_space w = false.

(** Whitespace runs collapsed to one space, written without [split] and
    [join]: a whitespace character is dropped when another one follows it
    and becomes a space otherwise. *)
Fixpoint collapse (s : string) : string :=
  match s with
  | EmptyString => EmptyString
  | String c s' =>
      if is_space c
      then match s' with
           | String c' _ =>
               if is_space c' then collapse s' else String " " (collapse s')
           | EmptyString => " "
           end
      else String c (collapse s')
  end.

Definition starts_space (s : string) : bool :=
  match s with
  | EmptyString => false
  | String c _ => is_space c
  end.

(** The normal form of the specification: trim, lower-case, collapse. *)
Definition normalize_spec (s : string) : string := collapse (lower (strip s)).

(* ===================================================================== *)
(** ** The field matcher                                                  *)
(* ===================================================================== *)

(** A row of the crawl export ([pd.Series]): column label to cell.  A
    scraped-content dict maps a URL to the extracted text or to [None]. *)
Abbreviation Row := (gmap string pyval).
Abbreviation ContentMap := (gmap string (option string)).
Abbreviation Checks := (gmap string bool).

Definition elements_to_check : list (string * string) :=
  [("Title", "Title 1");
   ("Meta Description", "Meta Description 1");
   ("H1", "H1-1")].

(** [[f'H2-{i}' for i in range(1, 6)]] *)
Definition h2_columns : list string :=
  (λ i : nat, "H2-" +:+ pretty i) <$> seq 1 5.

(** The guard of the scraped-content branch:
    [url and scraped_content and url in scraped_content and
     scraped_content[url]].  The keys of the dict are strings, so only a
    string address can be found in it. *)
Definition scraped_for (row : Row) (scraped_content : ContentMap)
  : option string :=
  match row !! "Address" with
  | Some (PStr url) =>
      if negb (is_empty url) && negb (bool_decide (scraped_content = ∅))
      then match scraped_content !! url with
           | Some (Some content) =>
               if is_empty content then None else Some content
           | _ => None
           end
      else None
  | _ => None
  end.

(** [SEOScorecardAnalyzer.analyze_query_in_elements] *)
Definition analyze_query_in_elements
    (query : pyval) (row : Row) (scraped_content : ContentMap) : Checks :=
  let query := clean_text query in
  if is_empty query then ∅
  else
    let results : Checks := ∅ in
    (* main elements *)
    let results :=
      foldl (λ (results : Checks) '(element_name, column),
               match row !! column with
               | Some cell =>
                   let text := clean_text cell in
                   <[element_name :=
                       if is_empty text then false else contains query text]>
                     results
               | None => results
               end)
            results elements_to_check in
    (* H2s *)
    let h2_texts :=
      foldl (λ (h2_texts : list string) h2_col,
               match row !! h2_col with
               | Some cell =>
                   if notna cell then (h2_texts ++ [clean_text cell])%list
                   else h2_texts
               | None => h2_texts
               end)
            [] h2_columns in
    let results :=
      <["H2s" := existsb (contains query)
                   (List.filter (λ t, negb (is_empty t)) h2_texts)]>
        results in
    (* content: scraped text first, then the Post 1 column *)
    match scraped_for row scraped_content with
    | Some content =>
        let clean_content := clean_text (PStr content) in
        <["Content" := if is_empty clean_content then false
                       else contains query clean_content]> results
    | None =>
        match row !! "Post 1" with
        | Some cell =>
            if notna cell
            then let clean_post := clean_text (PStr (py_str cell)) in
                 <["Content" := contains query clean_post]> results
            else <["Content" := false]> results
        | None => <["Content" := false]> results
        end
    end.

(* ===================================================================== *)
(** ** The content extractor                                              *)
(* ===================================================================== *)

(** One pass through the [try] block of [extract_from_url]: the request,
    [raise_for_status] or the extraction raised, or [trafilatura.extract]
    returned a text or [None]. *)
Inductive attempt :=
| Raised
| Extracted (content : option string).

(** What lies outside the program: [urlparse] (scheme and netloc, or
    [None] when it raises) and the outcome of the k-th request to a URL. *)
Record Web := {
  urlparse : string → option (string * string);
  respond : string → nat → attempt
}.

Record ContentExtractor := {
  max_retries : nat
}.

(** [ContentExtractor.is_valid_url] *)
Definition is_valid_url (web : Web) (url : string) : bool :=
  match urlparse web url with
  | Some (scheme, netloc) => negb (is_empty scheme) && negb (is_empty netloc)
  | None => false
  end.

(** The retry loop of [extract_from_url] over [range(max_retries + 1)]. *)
Fixpoint extract_attempts (web : Web) (self : ContentExtractor)
    (url : string) (attempts : list nat) : option string :=
  match attempts with
  | [] => None
  | attempt :: rest =>
      match respond web url attempt with
      | Extracted content =>
          match content with
          | Some text => if is_empty text then None else Some (strip text)
          | None => None
          end
      | Raised =>
          if (attempt =? max_retries self)%nat then None
          else extract_attempts web self url rest
      end
  end.

(** [ContentExtractor.extract_from_url] *)
Definition extract_from_url (web : Web) (self : ContentExtractor)
    (url : string) : option string :=
  if negb (is_valid_url web url) then None
  else extract_attempts web self url (seq 0 (max_retries self + 1)).

(** [ContentExtractor.batch_extract]: the dict comprehension. *)
Definition batch_extract (web : Web) (self : ContentExtractor)
    (urls : list string) : ContentMap :=
  foldl (λ (d : ContentMap) url, <[url := extract_from_url web self url]> d)
        ∅ urls.

(* ===================================================================== *)
(** ** The scorecard generator                                            *)
(* ===================================================================== *)

(** [df.empty] of a frame with columns: it has no rows.  Also the
    truth value of a list. *)
Definition is_nil {A} (l : list A) : bool :=
  match l with
  | [] => true
  | _ :: _ => false
  end.

(** A row of the analytics export.  [None] in a text column is the
    missing-value marker (NaN). *)
Record QueryRecord := {
  Query : option string;
  Landing_Page : option string;
  Clicks : Z;
  Impressions : Z
}.

(** A generated row: [{'Query': query, 'URL': url, **element_checks}]. *)
Record ResultRow := {
  r_Query : option string;
  r_URL : option string;
  r_checks : Checks
}.

(** The value of a text cell as a Python object. *)
Definition cell_value (c : option string) : pyval :=
  match c with
  | Some s => PStr s
  | None => PFloat FNaN
  end.

(** Element-wise [==] of a text column against a value: NaN equals
    nothing. *)
Definition cell_eqb (c x : option string) : bool :=
  match c, x with
  | Some a, Some b => String.eqb a b
  | _, _ => false
  end.

(** [sf_df['Address'] == url] on one row. *)
Definition address_eqb (row : Row) (url : option string) : bool :=
  match row !! "Address", url with
  | Some (PStr a), Some u => String.eqb a u
  | _, _ => false
  end.

(** (Clicks, Impressions) of [a] below that of [b], lexicographically. *)
Definition key_ltb (a b : QueryRecord) : bool :=
  ((Clicks a <? Clicks b)
   || (Clicks a =? Clicks b) && (Impressions a <? Impressions b))%Z.

(** Stable descending order: a record goes in front of the first record
    whose key is not above its own. *)
Fixpoint insert_desc (x : QueryRecord) (l : list QueryRecord)
  : list QueryRecord :=
  match l with
  | [] => [x]
  | y :: l' => if key_ltb x y then y :: insert_desc x l' else x :: l
  end.

Definition sort_desc (l : list QueryRecord) : list QueryRecord :=
  foldr insert_desc [] l.

(** [df.nlargest(n, ['Clicks', 'Impressions'])] with the default
    [keep='first']: the first [n] rows in descending order of the columns,
    rows of equal key in their original order. *)
Definition nlargest (n : nat) (df : list QueryRecord) : list QueryRecord :=
  take n (sort_desc df).

(** [Series.unique()]: values in order of first appearance. *)
Fixpoint unique_go {A} `{EqDecision A} (seen : list A) (l : list A)
  : list A :=
  match l with
  | [] => []
  | x :: l' =>
      if decide (x ∈ seen) then unique_go seen l'
      else x :: unique_go (x :: seen) l'
  end.

Definition unique {A} `{EqDecision A} (l : list A) : list A :=
  unique_go [] l.

(** Line 121: the queries of the ten largest rows. *)
Definition top_queries (gsc_df : list QueryRecord) : list (option string) :=
  unique (Query <$> nlargest 10 gsc_df).

(** Line 134: the landing pages of one query. *)
Definition query_urls (gsc_df : list QueryRecord) (query : option string)
  : list (option string) :=
  unique (Landing_Page <$>
            List.filter (λ r, cell_eqb (Query r) query) gsc_df).

(** Line 126: the landing pages of all selected queries ([isin] does
    match NaN with NaN). *)
Definition urls_to_scrape (gsc_df : list QueryRecord)
    (top : list (option string)) : list (option string) :=
  unique (Landing_Page <$>
            List.filter (λ r, bool_decide (Query r ∈ top)) gsc_df).

(** [SEOScorecardAnalyzer.generate_scorecard].  [content_extractor] is the
    attribute set by the constructor.  A missing landing page is no valid
    URL and is extracted as [None], so it is left out of the dict.  The
    crawl frame carries an Address column: the caller checks the required
    columns first (app.py), and without the column line 138 raises
    [KeyError], which the model leaves out. *)
Definition generate_scorecard (web : Web)
    (content_extractor : option ContentExtractor)
    (gsc_df : list QueryRecord) (sf_df : list Row) (scrape_urls : bool)
  : list ResultRow :=
  if is_nil gsc_df || is_nil sf_df then []
  else
    let top_queries := top_queries gsc_df in
    let scraped_content : ContentMap :=
      match content_extractor with
      | Some extractor =>
          if scrape_urls
          then batch_extract web extractor
                 (omap id (urls_to_scrape gsc_df top_queries))
          else ∅
      | None => ∅
      end in
    foldl (λ (results : list ResultRow) query,
             foldl (λ (results : list ResultRow) url,
                      let matching_rows :=
                        List.filter (λ row, address_eqb row url) sf_df in
                      match matching_rows with
                      | row :: _ =>
                          let element_checks :=
                            analyze_query_in_elements
                              (cell_value query) row scraped_content in
                          (results ++ [{| r_Query := query;
                                         r_URL := url;
                                         r_checks := element_checks |}])%list
                      | [] => results
                      end)
                   results (query_urls gsc_df query))
          [] top_queries.

(* ===================================================================== *)
(** ** The metrics aggregator                                             *)
(* ===================================================================== *)

Definition elements : list string :=
  ["Title"; "Meta Description"; "H1"; "H2s"; "Content"].

(** The cells of a column of the results frame that are not NaN: a row
    built without the key has NaN there. *)
Definition column_values (results_df : list ResultRow) (element : string)
  : list bool :=
  omap (λ r, r_checks r !! element) results_df.

(** [element in results_df]: the frame built from the row dicts has a
    column for every key that occurs in some row. *)
Definition has_column (results_df : list ResultRow) (element : string)
  : bool :=
  negb (is_nil (column_values results_df element)).

(** The numbers of the metrics dict: a Python [int], or a [float], which
    is a binary64 number. *)
Inductive pynum :=
| NInt (z : Z)
| NFloat (x : PrimFloat.float).

(** [float(z)]: the binary64 number nearest to the integer, the integer
    itself below 2^53 in absolute value.  The conversion of the model
    stops at 2^63, far beyond the length of any frame. *)
Definition float_of_Z (z : Z) : PrimFloat.float :=
  if (z <? 0)%Z
  then PrimFloat.opp (PrimFloat.of_uint63 (Uint63Axioms.of_Z (- z)))
  else PrimFloat.of_uint63 (Uint63Axioms.of_Z z).

Definition to_float (a : pynum) : PrimFloat.float :=
  match a with
  | NInt z => float_of_Z z
  | NFloat x => x
  end.

(** [a + b] and [a * b]: on two ints an int, otherwise the float
    operation on the operands taken as floats. *)
Definition py_add (a b : pynum) : pynum :=
  match a, b with
  | NInt x, NInt y => NInt (x + y)
  | _, _ => NFloat (PrimFloat.add (to_float a) (to_float b))
  end.

Definition py_mul (a b : pynum) : pynum :=
  match a, b with
  | NInt x, NInt y => NInt (x * y)
  | _, _ => NFloat (PrimFloat.mul (to_float a) (to_float b))
  end.

(** [a / b], true division: always a float.  (On two ints Python rounds
    the exact quotient; the code divides an int only when it is 0.) *)
Definition py_truediv (a b : pynum) : pynum :=
  NFloat (PrimFloat.div (to_float a) (to_float b)).

(** [sum(l)]: from the int 0, adding left to right. *)
Definition py_sum (l : list pynum) : pynum := foldl py_add (NInt 0) l.

(** [Series.mean()] of a boolean column, NaN cells skipped: the number of
    true cells divided by the number of cells, in binary64. *)
Definition mean (values : list bool) : PrimFloat.float :=
  PrimFloat.div (float_of_Z (Z.of_nat (length (List.filter id values))))
                (float_of_Z (Z.of_nat (length values))).

(** [Series.nunique()]: distinct values, NaN not counted. *)
Definition nunique (column : list (option string)) : nat :=
  length (unique (omap id column)).

Definition coverage_key (element : string) : string :=
  lower element +:+ "_coverage".

(** [metrics.get(key, 0)] *)
Definition get_default (metrics : gmap string pynum) (key : string)
  : pynum :=
  default (NInt 0) (metrics !! key).

(** [SEOScorecardAnalyzer.calculate_metrics] *)
Definition calculate_metrics (results_df : list ResultRow)
  : gmap string pynum :=
  if is_nil results_df then ∅
  else
    let metrics : gmap string pynum :=
      <["total_urls" := NInt (Z.of_nat (nunique (r_URL <$> results_df)))]>
        (<["total_queries" :=
             NInt (Z.of_nat (nunique (r_Query <$> results_df)))]> ∅) in
    let metrics :=
      foldl (λ (metrics : gmap string pynum) element,
               if has_column results_df element
               then <[coverage_key element :=
                        py_mul (NFloat (mean (column_values results_df
                                                element)))
                               (NInt 100)]>
                      metrics
               else metrics)
            metrics elements in
    let coverage_scores :=
      (λ el, get_default metrics (coverage_key el)) <$> elements in
    <["overall_score" :=
        if is_nil coverage_scores then NInt 0
        else py_truediv (py_sum coverage_scores)
                        (NInt (Z.of_nat (length coverage_scores)))]> metrics.

(* ===================================================================== *)
(** ** Notions used to state the properties                               *)
(* ===================================================================== *)

(** Same (Clicks, Impressions) key. *)
Definition same_keyb (a b : QueryRecord) : bool :=
  ((Clicks a =? Clicks b) && (Impressions a =? Impressions b))%Z.

(** The selection as the specification words it: rank all rows, reduce
    to distinct queries, then keep ten. *)
Definition top_queries_spec (gsc_df : list QueryRecord)
  : list (option string) :=
  take 10 (unique (Query <$> sort_desc gsc_df)).

(** Descending order of the (Clicks, Impressions) key: no record is below
    a later one. *)
Definition ranked_desc (l : list QueryRecord) : Prop :=
  StronglySorted (λ a b, key_ltb a b = false) l.

(** Ten queries, each with two landing pages, the first query far ahead
    in clicks. *)
Definition crowded_gsc : list QueryRecord :=
  ((λ i : nat, {| Query := Some "q0";
                  Landing_Page := Some ("https://x.com/" +:+ pretty i);
                  Clicks := 100; Impressions := 1000 |}) <$> seq 0 10)
  ++ ((λ i : nat, {| Query := Some ("q" +:+ pretty i);
                     Landing_Page := Some "https://x.com/0";
                     Clicks := 10; Impressions := 100 |}) <$> seq 1 9).

(** The columns the caller requires of the crawl export (app.py). *)
Definition required_sf_cols : list string :=
  ["Address"; "Title 1"; "Meta Description 1"; "H1-1"].

Definition validated (sf_df : list Row) : Prop :=
  Forall (λ row : Row, Forall (λ col, is_Some (row !! col)) required_sf_cols)
         sf_df.

(** The five field names of a match row. *)
Definition five_fields : gset string :=
  {[ "Title"; "Meta Description"; "H1"; "H2s"; "Content" ]}.

(** Scraped text [content] is on hand for the page of [row]: the page has
    a non-empty address, and the dict maps it to a non-empty text. *)
Definition live_content (row : Row) (scraped_content : ContentMap)
    (content : string) : Prop :=
  ∃ url, row !! "Address" = Some (PStr url) ∧ url ≠ ""
         ∧ scraped_content !! url = Some (Some content) ∧ content ≠ "".

(** The fallback body of [row]: the Post 1 cell, when the column exists
    and the cell is not missing. *)
Definition fallback_body (row : Row) (cell : pyval) : Prop :=
  row !! "Post 1" = Some cell ∧ notna cell = true.

(** Resolution of [url] fails: it is no valid URL, or every attempt
    raises (network error, error status, timeout), or the first attempt
    that does not raise extracts nothing: no text, or a text that is
    empty or whitespace only. *)
Definition resolution_fails (web : Web) (self : ContentExtractor)
    (url : string) : Prop :=
  is_valid_url web url = false
  ∨ (∀ k : nat, (k ≤ max_retries self)%nat → respond web url k = Raised)
  ∨ (∃ k : nat, (k ≤ max_retries self)%nat
          ∧ (∀ j : nat, (j < k)%nat → respond web url j = Raised)
          ∧ (respond web url k = Extracted None
             ∨ ∃ text, respond web url k = Extracted (Some text)
                       ∧ strip text = "")).

(** The binary64 quotient of two counts, times 100. *)
Definition percentage (t p : nat) : PrimFloat.float :=
  PrimFloat.mul
    (PrimFloat.div (float_of_Z (Z.of_nat t)) (float_of_Z (Z.of_nat p)))
    (float_of_Z 100).

(** The text the H2 loop collects for one column, if any. *)
Definition h2_text (row : Row) (col : string) : option string :=
  match row !! col with
  | Some cell => if notna cell then Some (clean_text cell) else None
  | None => None
  end.

(** [q] occurs in [t] as a contiguous piece. *)
Definition substring (q t : string) : Prop := ∃ a b, t = a +:+ q +:+ b.

(** Sample pages of a crawl export. *)
Definition shoes_page : Row :=
  list_to_map [("Address", PStr "https://x.com/p");
               ("Title 1", PStr "Best Shoes Online");
               ("Meta Description 1", PFloat FNaN);
               ("H1-1", PStr "Shop Now");
               ("H2-1", PFloat FNaN);
               ("H2-2", PStr "Trail  RUNNING Shoes");
               ("Post 1", PStr "running shoes for sale")].

Definition untitled_page : Row :=
  list_to_map [("Address", PStr "https://x.com/q");
               ("Title 1", PFloat FNaN);
               ("Meta Description 1", PStr "All about bananas");
               ("H1-1", PStr "Bananas")].

(** A web on which every request fails, and an analytics export with a
    query of blanks next to a proper one. *)
Definition offline_web : Web :=
  {| urlparse := λ _, None; respond := λ _ _, Raised |}.

Definition blank_gsc : list QueryRecord :=
  [ {| Query := Some "Running  Shoes";
       Landing_Page := Some "https://x.com/p";
       Clicks := 20; Impressions := 200 |};
    {| Query := Some "  ";
       Landing_Page := Some "https://x.com/p";
       Clicks := 10; Impressions := 100 |} ].

(** A web on which one page cannot be fetched and every other page
    answers with a text. *)
Definition flaky_web : Web :=
  {| urlparse := λ _, Some ("https", "x.com");
     respond := λ url _,
       if String.eqb url "https://x.com/p" then Raised
       else Extracted (Some " Running shoes ") |}.

(** A web whose pages hold nothing but white space. *)
Definition blank_web : Web :=
  {| urlparse := λ _, Some ("https", "x.com");
     respond := λ _ _, Extracted (Some "   ") |}.

(** How many rows hold the value [b] in the field [element]. *)
Definition rows_with (results_df : list ResultRow) (element : string)
    (b : bool) : nat :=
  length (List.filter
            (λ r, bool_decide (r_checks r !! element = Some b)) results_df).

(** The row emitted for a query and one of its URLs: the first page of the
    crawl export whose address is the URL decides it; no page, no row. *)
Definition emitted (sf_df : list Row) (scraped_content : ContentMap)
    (query url : option string) : list ResultRow :=
  match List.find (λ row, address_eqb row url) sf_df with
  | Some row =>
      [ {| r_Query := query;
           r_URL := url;
           r_checks := analyze_query_in_elements
                         (cell_value query) row scraped_content |} ]
  | None => []
  end.

(** The rows of a frame with a given query and URL. *)
Definition rows_of_pair (q u : option string) (df : list ResultRow)
  : list ResultRow :=
  List.filter (λ r, bool_decide (r_Query r = q ∧ r_URL r = u)) df.

(* ===================================================================== *)
(** ** The rest of the run: scraped content, and the caller's column check *)
(* ===================================================================== *)

(** Lines 124-127 of [generate_scorecard]: the scraped content of a run. *)
Definition run_scraped_content (web : Web)
    (content_extractor : option ContentExtractor)
    (gsc_df : list QueryRecord) (scrape_urls : bool) : ContentMap :=
  match content_extractor with
  | Some extractor =>
      if scrape_urls
      then batch_extract web extractor
             (omap id (urls_to_scrape gsc_df (top_queries gsc_df)))
      else ∅
  | None => ∅
  end.

(** app.py, lines 58-59: the required columns, as sets.  The crawl set
    holds the names of [required_sf_cols]. *)
Definition required_gsc_set : gset string :=
  {[ "Query"; "Landing Page"; "Clicks"; "Impressions" ]}.

Definition required_sf_set : gset string :=
  {[ "Address"; "Title 1"; "Meta Description 1"; "H1-1" ]}.

(** What the column check of [main] decides: go on with the analysis, or
    report the missing columns of either file and return. *)
Inductive column_check :=
| ColumnsOk
| MissingColumns (missing_gsc missing_sf : gset string).

(** app.py, lines 61-68, on the column labels of the two frames. *)
Definition check_required_columns (gsc_columns sf_columns : list string)
  : column_check :=
  let missing_gsc := required_gsc_set ∖ list_to_set gsc_columns in
  let missing_sf := required_sf_set ∖ list_to_set sf_columns in
  if bool_decide (missing_gsc ≠ ∅) || bool_decide (missing_sf ≠ ∅)
  then MissingColumns missing_gsc missing_sf
  else ColumnsOk.

(** The (Query, URL) pair of a generated row. *)
Definition pair_of (r : ResultRow) : option string * option string :=
  (r_Query r, r_URL r).

(** A web that fails three times on every page and answers afterwards. *)
Definition late_web : Web :=
  {| urlparse := λ _, Some ("https", "x.com");
     respond := λ _ k,
       if (k <? 3)%nat then Raised else Extracted (Some "late text") |}.

(* ===================================================================== *)
(** ** Facts about Python strings                                         *)
(* ===================================================================== *)

Section StringFacts.

Implicit Types (c : ascii) (s t w : string) (ws : list string).

Lemma str_app_nil_l s : "" +:+ s = s.
Proof. reflexivity. Qed.

Lemma str_app_cons c s t : String c s +:+ t = String c (s +:+ t).
Proof. reflexivity. Qed.

Lemma str_app_empty_r s : s +:+ "" = s.
Proof. induction s as [|c s IH]; [done|]. by rewrite str_app_cons, IH. Qed.

Lemma str_app_assoc s t w : (s +:+ t) +:+ w = s +:+ (t +:+ w).
Proof. induction s as [|c s IH]; [done|]. by rewrite !str_app_cons, IH. Qed.

Lemma is_empty_true s : is_empty s = true ↔ s = "".
Proof. destruct s; simpl; split; congruence. Qed.

Lemma is_empty_app s t : is_empty (s +:+ t) = is_empty s && is_empty t.
Proof. by destruct s. Qed.

Lemma lower_char_space c : is_space (lower_char c) = is_space c.
Proof. destruct c as [[] [] [] [] [] [] [] []]; reflexivity. Qed.

Lemma lower_char_idem c : lower_char (lower_char c) = lower_char c.
Proof. destruct c as [[] [] [] [] [] [] [] []]; reflexivity. Qed.

Lemma lower_app s t : lower (s +:+ t) = lower s +:+ lower t.
Proof.
  induction s as [|c s IH]; [done|]. rewrite str_app_cons. simpl.
  by rewrite IH.
Qed.

Lemma lower_idem s : lower (lower s) = lower s.
Proof. induction s; simpl; [done|]. by rewrite lower_char_idem, IHs. Qed.

Lemma is_empty_lower s : is_empty (lower s) = is_empty s.
Proof. by destruct s. Qed.

Lemma has_space_app s t : has_space (s +:+ t) = has_space s || has_space t.
Proof.
  induction s as [|c s IH]; [done|]. rewrite str_app_cons. simpl.
  by rewrite IH, orb_assoc.
Qed.

Lemma has_space_lower s : has_space (lower s) = has_space s.
Proof. induction s; simpl; [done|]. by rewrite lower_char_space, IHs. Qed.

(** *** [split] *)

Lemma split_go_lower w s :
  split_go (lower w) (lower s) = lower <$> split_go w s.
Proof.
  revert w. induction s as [|c s IH]; intros w; simpl.
  - rewrite is_empty_lower. by destruct (is_empty w).
  - rewrite lower_char_space, is_empty_lower.
    destruct (is_space c).
    + destruct (is_empty w); rewrite ?fmap_cons;
        [apply (IH "")|f_equal; apply (IH "")].
    + by rewrite <- IH, lower_app.
Qed.

Lemma split_lower s : split (lower s) = lower <$> split s.
Proof. apply (split_go_lower ""). Qed.

Lemma split_lstrip s : split (lstrip s) = split s.
Proof.
  unfold split. induction s as [|c s IH]; simpl; [done|].
  destruct (is_space c) eqn:Hc; simpl; [done|]. by rewrite Hc.
Qed.

Lemma split_go_rstrip w s : split_go w (rstrip s) = split_go w s.
Proof.
  revert w. induction s as [|c s IH]; intros w; simpl; [done|].
  destruct (is_space c) eqn:Hc; simpl.
  - destruct (is_empty (rstrip s)) eqn:He; simpl.
    + apply is_empty_true in He. specialize (IH ""). rewrite He in IH.
      simpl in IH. rewrite <- IH. by destruct (is_empty w).
    + rewrite Hc. by rewrite !IH.
  - rewrite Hc. apply IH.
Qed.

Lemma split_strip s : split (strip s) = split s.
Proof. unfold strip, split. rewrite split_go_rstrip. apply split_lstrip. Qed.

Lemma split_go_words w s :
  has_space w = false → Forall is_word (split_go w s).
Proof.
  revert w. induction s as [|c s IH]; intros w Hw; simpl.
  - destruct (is_empty w) eqn:He; [constructor|]. by repeat constructor.
  - destruct (is_space c) eqn:Hc.
    + destruct (is_empty w) eqn:He; [by apply IH|].
      constructor; [done|]. by apply IH.
    + apply IH. rewrite has_space_app. simpl. by rewrite Hw, Hc.
Qed.

Lemma split_words s : Forall is_word (split s).
Proof. by apply split_go_words. Qed.

Lemma split_go_word w s t :
  has_space s = false → split_go w (s +:+ t) = split_go (w +:+ s) t.
Proof.
  revert w. induction s as [|c s IH]; intros w Hs.
  - by rewrite str_app_empty_r.
  - simpl in Hs. apply orb_false_elim in Hs as [Hc Hs].
    rewrite str_app_cons. simpl. rewrite Hc.
    rewrite IH by done. by rewrite str_app_assoc.
Qed.

Lemma join_cons2 sep w w' ws :
  join sep (w :: w' :: ws) = w +:+ sep +:+ join sep (w' :: ws).
Proof. reflexivity. Qed.

Lemma split_join ws : Forall is_word ws → split (join " " ws) = ws.
Proof.
  unfold split. induction 1 as [|w ws [He Hs] Hws IH]; [done|].
  destruct ws as [|w' ws].
  - simpl. rewrite <- (str_app_empty_r w) at 1.
    rewrite split_go_word by done. rewrite str_app_nil_l. simpl. by rewrite He.
  - rewrite join_cons2, split_go_word by done.
    rewrite str_app_nil_l, str_app_cons, str_app_nil_l.
    change (split_go w (String " " (join " " (w' :: ws))))
      with (if is_empty w then split_go "" (join " " (w' :: ws))
            else w :: split_go "" (join " " (w' :: ws))).
    rewrite He. by rewrite IH.
Qed.

(** *** [strip] *)

Lemma lstrip_word_app w t : is_word w → lstrip (w +:+ t) = w +:+ t.
Proof.
  intros [He Hs]. destruct w as [|c w]; [done|]. simpl in Hs.
  apply orb_false_elim in Hs as [Hc _]. rewrite str_app_cons. simpl.
  by rewrite Hc.
Qed.

Lemma rstrip_app_nonempty s t :
  is_empty (rstrip t) = false → rstrip (s +:+ t) = s +:+ rstrip t.
Proof.
  intros Ht. induction s as [|c s IH]; [done|]. rewrite !str_app_cons. simpl.
  rewrite IH, is_empty_app, Ht, andb_false_r, andb_false_r. done.
Qed.

Lemma rstrip_word w : is_word w → rstrip w = w.
Proof.
  intros [He Hs]. induction w as [|c w IH]; [done|]. simpl in *.
  apply orb_false_elim in Hs as [Hc Hs]. rewrite Hc. simpl.
  destruct w as [|c' w]; [done|]. by rewrite IH.
Qed.

Lemma rstrip_join ws : Forall is_word ws → rstrip (join " " ws) = join " " ws.
Proof.
  induction 1 as [|w ws Hw Hws IH]; [done|].
  destruct ws as [|w' ws]; [by apply rstrip_word|].
  rewrite join_cons2.
  assert (Hne : is_empty (rstrip (join " " (w' :: ws))) = false).
  { rewrite IH. inversion Hws as [|? ? [He _] _]; subst.
    destruct ws; [done|]. by rewrite join_cons2, is_empty_app, He. }
  rewrite <- str_app_assoc, rstrip_app_nonempty by done. by rewrite IH.
Qed.

Lemma strip_join ws : Forall is_word ws → strip (join " " ws) = join " " ws.
Proof.
  intros Hws. unfold strip.
  assert (Hl : lstrip (join " " ws) = join " " ws).
  { destruct Hws as [|w ws Hw Hws]; [done|].
    destruct ws; [simpl; rewrite <- (str_app_empty_r w)|rewrite join_cons2];
      by apply lstrip_word_app. }
  rewrite Hl. by apply rstrip_join.
Qed.

Lemma lower_join ws : lower (join " " ws) = join " " (lower <$> ws).
Proof.
  induction ws as [|w ws IH]; [done|].
  destruct ws as [|w' ws]; [done|].
  rewrite fmap_cons, fmap_cons, join_cons2, !lower_app.
  rewrite fmap_cons in IH. by rewrite IH.
Qed.

Lemma is_word_lower w : is_word w → is_word (lower w).
Proof. intros [He Hs]. split; by rewrite ?is_empty_lower, ?has_space_lower. Qed.

(** *** [split] and [join] against the collapsed form *)

Lemma split_go_acc_nonnil w s : is_empty w = false → split_go w s ≠ [].
Proof.
  revert w. induction s as [|c s IH]; intros w Hw; simpl.
  - by rewrite Hw.
  - destruct (is_space c); [by rewrite Hw|].
    apply IH. by rewrite is_empty_app, Hw.
Qed.

Lemma split_go_nonnil w s : is_empty (rstrip s) = false → split_go w s ≠ [].
Proof.
  revert w. induction s as [|c s IH]; intros w Hs; [done|].
  simpl in *. destruct (is_space c); simpl in Hs.
  - destruct (is_empty (rstrip s)) eqn:He; [done|].
    destruct (is_empty w); [by apply IH|done].
  - apply split_go_acc_nonnil. by rewrite is_empty_app, andb_false_r.
Qed.

Lemma join_cons_nonnil sep w ws :
  ws ≠ [] → join sep (w :: ws) = w +:+ sep +:+ join sep ws.
Proof. by destruct ws. Qed.

Lemma rstrip_fix_inv c s :
  rstrip (String c s) = String c s →
  rstrip s = s ∧ (is_space c = true → is_empty (rstrip s) = false).
Proof.
  simpl. destruct (is_space c && is_empty (rstrip s)) eqn:E; [done|].
  intros [= Hs]. split; [done|]. intros Hc. by rewrite Hc in E.
Qed.

Lemma join_split_collapse_gen s :
  rstrip s = s →
  (∀ w, is_empty w = false ∨ starts_space s = false →
        join " " (split_go w s) = w +:+ collapse s)
  ∧ (starts_space s = true →
     " " +:+ join " " (split_go "" s) = collapse s).
Proof.
  induction s as [|c s IH]; intros Hs.
  { split; [|done]. intros w _. simpl.
    destruct w; [done|]. simpl. by rewrite str_app_empty_r. }
  apply rstrip_fix_inv in Hs as [Hs Hne].
  destruct (IH Hs) as [IH1 IH2]. clear IH.
  destruct (is_space c) eqn:Hc.
  - specialize (Hne eq_refl).
    assert (Hnil : split_go "" s ≠ []) by by apply split_go_nonnil.
    destruct s as [|c' s']; [done|].
    assert (Hcol : " " +:+ join " " (split_go "" (String c' s'))
                   = collapse (String c (String c' s'))).
    { change (collapse (String c (String c' s')))
        with (if is_space c
              then (if is_space c' then collapse (String c' s')
                    else String " " (collapse (String c' s')))
              else String c (collapse (String c' s'))).
      rewrite Hc. destruct (is_space c') eqn:Hc'.
      - by apply IH2.
      - rewrite (IH1 ""); [done|]. right. simpl. done. }
    split.
    + intros w [Hw|Hw]; [|simpl in Hw; congruence].
      change (split_go w (String c (String c' s')))
        with (if is_space c
              then (if is_empty w then split_go "" (String c' s')
                    else w :: split_go "" (String c' s'))
              else split_go (w +:+ String c "") (String c' s')).
      rewrite Hc, Hw, join_cons_nonnil by done. by rewrite Hcol.
    + intros _. rewrite <- Hcol.
      change (split_go "" (String c (String c' s')))
        with (if is_space c then split_go "" (String c' s')
              else split_go ("" +:+ String c "") (String c' s')).
      by rewrite Hc.
  - split; [|simpl; congruence]. intros w _. simpl. rewrite Hc.
    rewrite IH1 by (left; by rewrite is_empty_app, andb_false_r).
    by rewrite str_app_assoc.
Qed.

Lemma lstrip_starts s : starts_space (lstrip s) = false.
Proof.
  induction s as [|c s IH]; [done|]. simpl.
  destruct (is_space c) eqn:Hc; [done|]. simpl. done.
Qed.

Lemma rstrip_idem s : rstrip (rstrip s) = rstrip s.
Proof.
  induction s as [|c s IH]; [done|]. simpl.
  destruct (is_space c && is_empty (rstrip s)) eqn:E; [done|].
  simpl. by rewrite IH, E.
Qed.

Lemma rstrip_starts s : starts_space s = false → starts_space (rstrip s) = false.
Proof.
  destruct s as [|c s]; [done|]. simpl. intros Hc. by rewrite Hc.
Qed.

Lemma rstrip_lower s : rstrip (lower s) = lower (rstrip s).
Proof.
  induction s as [|c s IH]; [done|]. simpl.
  rewrite lower_char_space, IH, is_empty_lower.
  by destruct (is_space c && is_empty (rstrip s)).
Qed.

Lemma starts_space_lower s : starts_space (lower s) = starts_space s.
Proof. destruct s; [done|]. simpl. apply lower_char_space. Qed.

(** On a trimmed text, splitting on whitespace and joining with single
    spaces is collapsing the whitespace runs. *)
Lemma join_split_collapse s :
  join " " (split (lower (strip s))) = collapse (lower (strip s)).
Proof.
  destruct (join_split_collapse_gen (lower (strip s))) as [H _].
  - unfold strip. by rewrite rstrip_lower, rstrip_idem.
  - unfold split. rewrite (H ""); [done|]. right.
    rewrite starts_space_lower. unfold strip.
    apply rstrip_starts, lstrip_starts.
Qed.

(** What [strip] removes is whitespace, and nothing of it is left at
    either end. *)
Lemma strip_decompose s :
  ∃ a b, s = a +:+ strip s +:+ b
         ∧ lstrip a = "" ∧ lstrip b = ""
         ∧ starts_space (strip s) = false
         ∧ rstrip (strip s) = strip s.
Proof.
  assert (Hl : ∀ t, ∃ a, t = a +:+ lstrip t ∧ lstrip a = "").
  { induction t as [|c t [a [Ha1 Ha2]]]; [by exists ""|]. simpl.
    destruct (is_space c) eqn:Hc; [|by exists ""].
    exists (String c a). rewrite str_app_cons, <- Ha1. simpl. by rewrite Hc. }
  assert (Hr : ∀ t, ∃ b, t = rstrip t +:+ b ∧ lstrip b = "").
  { induction t as [|c t [b [Hb1 Hb2]]]; [by exists ""|]. simpl.
    destruct (is_space c && is_empty (rstrip t)) eqn:E.
    - apply andb_prop in E as [Hc He]. apply is_empty_true in He.
      rewrite He, str_app_nil_l in Hb1. subst b. exists (String c t).
      rewrite str_app_nil_l. simpl. by rewrite Hc.
    - exists b. by rewrite str_app_cons, <- Hb1. }
  destruct (Hl s) as [a [Ha1 Ha2]].
  destruct (Hr (lstrip s)) as [b [Hb1 Hb2]].
  exists a, b. unfold strip. repeat split; try done.
  - by rewrite <- Hb1.
  - apply rstrip_starts, lstrip_starts.
  - apply rstrip_idem.
Qed.

End StringFacts.

(* ===================================================================== *)
(** ** The text normalizer                                                *)
(* ===================================================================== *)

Lemma clean_text_scalar (x : pyval) :
  is_scalar x = true →
  clean_text x = join " " (split (lower (strip (py_str x)))).
Proof. unfold clean_text. by intros ->. Qed.

Lemma clean_text_words (x : pyval) :
  is_scalar x = true →
  clean_text x = join " " (lower <$> split (py_str x)).
Proof.
  intros Hx. by rewrite clean_text_scalar, split_lower, split_strip.
Qed.

Lemma clean_text_nonscalar (x : pyval) :
  is_scalar x = false → clean_text x = "".
Proof. unfold clean_text. by intros ->. Qed.

Lemma clean_text_str_idem (s : string) :
  clean_text (PStr (clean_text (PStr s))) = clean_text (PStr s).
Proof.
  rewrite (clean_text_words (PStr s)) by done. simpl.
  set (ws := lower <$> split s).
  assert (Hws : Forall is_word ws).
  { apply Forall_fmap. eapply Forall_impl; [apply split_words|].
    intros w Hw. by apply is_word_lower. }
  assert (Hlow : lower <$> ws = ws).
  { unfold ws. rewrite <- list_fmap_compose. apply list_fmap_ext.
    intros _ w _. apply lower_idem. }
  rewrite clean_text_scalar by done. simpl.
  by rewrite strip_join, lower_join, Hlow, split_join.
Qed.

Lemma clean_text_idem (x : pyval) :
  clean_text (PStr (clean_text x)) = clean_text x.
Proof.
  destruct (is_scalar x) eqn:Hx.
  - rewrite (clean_text_scalar x) by done.
    change (join " " (split (lower (strip (py_str x)))))
      with (clean_text (PStr (py_str x))).
    apply clean_text_str_idem.
  - by rewrite (clean_text_nonscalar x).
Qed.

(** [clean_text] (the Text Normalizer) is a total function.  On a
    scalar ([str], [int], [bool], [float]) it returns the text of the
    value trimmed of leading and trailing whitespace, lower-cased, with
    every run of whitespace collapsed to one space; equivalently the
    lower-cased words of the text joined by single spaces.  On [None] and
    on any non-scalar value it returns the empty string.  Normalizing a
    normalized text changes nothing. *)
Lemma clean_text_normal_form (x : pyval) :
  clean_text x = (if is_scalar x then normalize_spec (py_str x) else "")
  ∧ clean_text x
    = (if is_scalar x then join " " (lower <$> split (py_str x)) else "")
  ∧ clean_text PNone = ""
  ∧ clean_text (PStr (clean_text x)) = clean_text x.
Proof.
  destruct (is_scalar x) eqn:Hx.
  - repeat split.
    + rewrite clean_text_scalar by done. apply join_split_collapse.
    + by apply clean_text_words.
    + apply clean_text_idem.
  - rewrite clean_text_idem, (clean_text_nonscalar x) by done. done.
Qed.

(** C9.  The normalizer is meant to give the empty string for an absent
    value and the normal form for an integer; the code departs from it on
    the values pandas hands over.  A missing cell is the float NaN: it is
    missing for [pd.notna], passes the [isinstance] test as a float, and
    comes out as the text "nan".  The integer of a numeric column is a
    numpy integer, which is no [int]: it fails the test and comes out
    empty, where the same number as a Python [int] gives its digits. *)
Theorem C9_nan_and_numpy_cells :
  notna (PFloat FNaN) = false
  ∧ is_scalar (PFloat FNaN) = true
  ∧ clean_text (PFloat FNaN) = "nan"
  ∧ py_str (PObj "2024") = "2024"
  ∧ is_scalar (PObj "2024") = false
  ∧ clean_text (PObj "2024") = ""
  ∧ clean_text (PInt 2024) = "2024".
Proof. repeat split; by vm_compute. Qed.

(* ===================================================================== *)
(** ** The field matcher                                                  *)
(* ===================================================================== *)

Section MatcherFacts.

Implicit Types (q t : string) (row : Row) (sc : ContentMap).

Lemma startswith_spec q t : startswith q t = true ↔ ∃ b, t = q +:+ b.
Proof.
  revert t. induction q as [|c q IH]; intros t; simpl.
  - split; [intros _; by exists t|done].
  - destruct t as [|c' t].
    + split; [done|]. intros [b Hb]. by rewrite str_app_cons in Hb.
    + rewrite andb_true_iff, Ascii.eqb_eq, IH. split.
      * intros [-> [b ->]]. by exists b.
      * intros [b Hb]. rewrite str_app_cons in Hb. injection Hb as -> ->. eauto.
Qed.

(** Python's [q in t] is the substring test. *)
Lemma contains_spec q t : contains q t = true ↔ substring q t.
Proof.
  unfold substring. induction t as [|c t IH].
  - simpl. rewrite orb_false_r, startswith_spec. split.
    + intros [b Hb]. by exists "", b.
    + intros [a [b Hb]]. destruct a; [by exists b|by rewrite str_app_cons in Hb].
  - change (contains q (String c t))
      with (startswith q (String c t) || contains q t).
    rewrite orb_true_iff, startswith_spec, IH. split.
    + intros [[b Hb]|[a [b Hb]]]; [by exists "", b|].
      exists (String c a), b. by rewrite str_app_cons, Hb.
    + intros [a [b Hb]]. destruct a as [|c' a]; [left; by exists b|].
      right. rewrite str_app_cons in Hb. injection Hb as -> ->. eauto.
Qed.

Lemma contains_in_empty q : is_empty q = false → contains q "" = false.
Proof. by destruct q. Qed.

(** The guard of the scraped-content branch holds exactly when scraped
    text is on hand for the page. *)
Lemma scraped_for_spec row sc content :
  scraped_for row sc = Some content ↔ live_content row sc content.
Proof.
  unfold scraped_for, live_content. split.
  - destruct (row !! "Address") as [[| url | | | |]|]; try done.
    destruct (is_empty url) eqn:Hu; [done|].
    destruct (bool_decide (sc = ∅)); [done|]. simpl.
    destruct (sc !! url) as [[c|]|] eqn:Hsc; try done.
    destruct (is_empty c) eqn:Hc; [done|]. intros [= <-].
    exists url. repeat split; try done; intros ->; done.
  - intros [url (-> & Hu & Hsc & Hc)].
    assert (is_empty url = false) as -> by by destruct url.
    assert (bool_decide (sc = ∅) = false) as ->.
    { apply bool_decide_eq_false. intros ->. by rewrite lookup_empty in Hsc. }
    simpl. rewrite Hsc.
    by assert (is_empty content = false) as -> by by destruct content.
Qed.

Lemma h2_loop row (cols : list string) (acc : list string) :
  foldl (λ (h2_texts : list string) h2_col,
           match row !! h2_col with
           | Some cell =>
               if notna cell then (h2_texts ++ [clean_text cell])%list
               else h2_texts
           | None => h2_texts
           end) acc cols
  = (acc ++ omap (h2_text row) cols)%list.
Proof.
  revert acc. induction cols as [|col cols IH]; intros acc; simpl.
  - by rewrite app_nil_r.
  - rewrite IH. unfold h2_text at 2.
    destruct (row !! col) as [cell|]; [|done].
    destruct (notna cell); [|done]. by rewrite <- app_assoc.
Qed.

Lemma elem_of_h2_columns (col : string) :
  col ∈ h2_columns ↔ ∃ i : nat, (1 ≤ i ≤ 5)%nat ∧ col = "H2-" +:+ pretty i.
Proof.
  unfold h2_columns. rewrite list_elem_of_fmap. split.
  - intros [i [-> Hi]]. apply elem_of_seq in Hi. exists i. split; [lia|done].
  - intros [i [Hi ->]]. exists i. split; [done|]. apply elem_of_seq. lia.
Qed.

Ltac lookup_inserts :=
  repeat (rewrite lookup_insert_eq || rewrite lookup_insert_ne by done).

Lemma analyze_empty_query (query : pyval) row sc :
  is_empty (clean_text query) = true →
  analyze_query_in_elements query row sc = ∅.
Proof. unfold analyze_query_in_elements. by intros ->. Qed.

Lemma analyze_content (query : pyval) row sc :
  is_empty (clean_text query) = false →
  analyze_query_in_elements query row sc !! "Content"
  = Some match scraped_for row sc with
         | Some content =>
             contains (clean_text query) (clean_text (PStr content))
         | None =>
             match row !! "Post 1" with
             | Some cell =>
                 notna cell
                 && contains (clean_text query)
                      (clean_text (PStr (py_str cell)))
             | None => false
             end
         end.
Proof.
  intros Hq. unfold analyze_query_in_elements. rewrite Hq.
  destruct (scraped_for row sc) as [content|].
  - lookup_inserts. f_equal.
    destruct (is_empty (clean_text (PStr content))) eqn:He; [|done].
    apply is_empty_true in He. rewrite He. by rewrite contains_in_empty.
  - destruct (row !! "Post 1") as [cell|]; [|by lookup_inserts].
    destruct (notna cell); by lookup_inserts.
Qed.

Lemma analyze_h2s (query : pyval) row sc :
  is_empty (clean_text query) = false →
  analyze_query_in_elements query row sc !! "H2s"
  = Some (existsb (contains (clean_text query))
            (List.filter (λ t, negb (is_empty t))
               (omap (h2_text row) h2_columns))).
Proof.
  intros Hq. unfold analyze_query_in_elements. rewrite Hq.
  rewrite h2_loop, app_nil_l.
  destruct (scraped_for row sc) as [content|];
    [|destruct (row !! "Post 1") as [cell|]; [destruct (notna cell)|]];
    by lookup_inserts.
Qed.

Lemma analyze_main (query : pyval) row sc (name column : string) :
  is_empty (clean_text query) = false →
  (name, column) ∈ elements_to_check →
  analyze_query_in_elements query row sc !! name
  = match row !! column with
    | Some cell =>
        Some (if is_empty (clean_text cell) then false
              else contains (clean_text query) (clean_text cell))
    | None => None
    end.
Proof.
  intros Hq Hin. unfold analyze_query_in_elements. rewrite Hq.
  unfold elements_to_check in *. simpl foldl.
  assert (Hcases : (name, column) = ("Title", "Title 1")
                   ∨ (name, column) = ("Meta Description", "Meta Description 1")
                   ∨ (name, column) = ("H1", "H1-1")).
  { rewrite !elem_of_cons, elem_of_nil in Hin. tauto. }
  destruct Hcases as [[= -> ->]|[[= -> ->]|[= -> ->]]];
    destruct (scraped_for row sc) as [content|];
    [|destruct (row !! "Post 1") as [cell|]; [destruct (notna cell)|]
     | |destruct (row !! "Post 1") as [cell|]; [destruct (notna cell)|]
     | |destruct (row !! "Post 1") as [cell|]; [destruct (notna cell)|]];
    destruct (row !! "Title 1") as [c1|];
    destruct (row !! "Meta Description 1") as [c2|];
    destruct (row !! "H1-1") as [c3|];
    lookup_inserts; try done.
Qed.

End MatcherFacts.

(** C2.  A missing Title, Meta Description or H1 is meant to be false
    for every query; the code departs from it.  pandas stores a missing
    cell as the float NaN, which [pd.notna] would reject but this loop does
    not ask; [clean_text] prints it as the text "nan", and the Title check
    then matches the query "nan" (and "a", "n", "an", "na") against a page
    that has no title at all. *)
Theorem C2_missing_title_matches :
  untitled_page !! "Title 1" = Some (PFloat FNaN)
  ∧ notna (PFloat FNaN) = false
  ∧ clean_text (PFloat FNaN) = "nan"
  ∧ analyze_query_in_elements (PStr "nan") untitled_page ∅ !! "Title"
    = Some true
  ∧ analyze_query_in_elements (PStr "a") untitled_page ∅ !! "Title"
    = Some true.
Proof. repeat split; by vm_compute. Qed.

(** C5.  For a query whose normal form is not empty, the Content field
    follows the precedence: when scraped text is on hand for the page's
    address, the field says whether the normalized query is a substring of
    the normalized scraped text, whatever the Post 1 cell holds; otherwise,
    when the Post 1 cell is present, it says whether the query is a
    substring of the normalized text of that cell; otherwise it is false.
    The text of a scalar cell normalizes as the cell itself does. *)
Theorem C5_content_precedence (query : pyval) (row : Row) (sc : ContentMap) :
  is_empty (clean_text query) = false →
  ∃ b, analyze_query_in_elements query row sc !! "Content" = Some b
    ∧ (∀ content, live_content row sc content →
         (b = true ↔
          substring (clean_text query) (clean_text (PStr content))))
    ∧ ((∀ content, ¬ live_content row sc content) →
       ∀ cell, fallback_body row cell →
         (b = true ↔
          substring (clean_text query) (clean_text (PStr (py_str cell)))))
    ∧ ((∀ content, ¬ live_content row sc content) →
       (∀ cell, ¬ fallback_body row cell) → b = false)
    ∧ (∀ cell, is_scalar cell = true →
         clean_text (PStr (py_str cell)) = clean_text cell).
Proof.
  intros Hq. eexists. split; [by apply analyze_content|].
  split; [|split; [|split]].
  - intros content Hlive. apply scraped_for_spec in Hlive. rewrite Hlive.
    apply contains_spec.
  - intros Hno cell [Hcell Hna].
    destruct (scraped_for row sc) as [content|] eqn:Hs.
    { apply scraped_for_spec in Hs. by destruct (Hno content). }
    rewrite Hcell, Hna. apply contains_spec.
  - intros Hno Hnb.
    destruct (scraped_for row sc) as [content|] eqn:Hs.
    { apply scraped_for_spec in Hs. by destruct (Hno content). }
    destruct (row !! "Post 1") as [cell|] eqn:Hcell; [|done].
    destruct (notna cell) eqn:Hna; [|done]. by destruct (Hnb cell).
  - intros cell Hcell. by destruct cell as [| | |[]|[]|].
Qed.

(** The precedence at work: scraped text without the query wins over a
    Post 1 cell that has it. *)
Lemma C5_content_precedence_witness :
  is_empty (clean_text (PStr "Shoes")) = false
  ∧ ∃ b, analyze_query_in_elements (PStr "Shoes") shoes_page
           {[ "https://x.com/p" := Some "Shop now" ]} !! "Content" = Some b
         ∧ (b = true ↔ substring "shoes" "shop now").
Proof.
  split; [reflexivity|].
  destruct (C5_content_precedence (PStr "Shoes") shoes_page
              {[ "https://x.com/p" := Some "Shop now" ]} eq_refl)
    as [b [Hb [Hlive _]]].
  exists b. split; [exact Hb|].
  apply (Hlive "Shop now"). exists "https://x.com/p".
  repeat split; done.
Defined.

(** C7.  For a query whose normal form is not empty, the H2s field is true
    exactly when one of the columns H2-1 .. H2-5 is present in the row with
    a cell that is not missing, whose normal form is not empty and has the
    normalized query as a substring.  A column that is absent, or a cell
    that is missing or empty, never makes it true. *)
Theorem C7_h2s_any_heading (query : pyval) (row : Row) (sc : ContentMap) :
  is_empty (clean_text query) = false →
  ∃ b, analyze_query_in_elements query row sc !! "H2s" = Some b
    ∧ (b = true ↔
       ∃ (i : nat) (cell : pyval),
         (1 ≤ i ≤ 5)%nat
         ∧ row !! ("H2-" +:+ pretty i) = Some cell
         ∧ notna cell = true
         ∧ is_empty (clean_text cell) = false
         ∧ substring (clean_text query) (clean_text cell)).
Proof.
  intros Hq. eexists. split; [by apply analyze_h2s|].
  rewrite existsb_exists. split.
  - intros [t [Ht Hc]]. apply filter_In in Ht as [Ht Hne].
    apply list_elem_of_In, list_elem_of_omap in Ht as [col [Hcol Ht]].
    apply elem_of_h2_columns in Hcol as [i [Hi ->]].
    unfold h2_text in Ht.
    destruct (row !! ("H2-" +:+ pretty i)) as [cell|] eqn:Hcell; [|done].
    destruct (notna cell) eqn:Hna; [|done]. injection Ht as <-.
    exists i, cell. repeat split; try done; try lia.
    + by apply negb_true_iff.
    + by apply contains_spec.
  - intros (i & cell & Hi & Hcell & Hna & Hne & Hsub).
    exists (clean_text cell). split; [|by apply contains_spec].
    apply filter_In. split; [|by rewrite Hne].
    apply list_elem_of_In, list_elem_of_omap.
    exists ("H2-" +:+ pretty i). split.
    + apply elem_of_h2_columns. by exists i.
    + unfold h2_text. by rewrite Hcell, Hna.
Qed.

(** The second heading of [shoes_page] carries the query; the first one
    is missing. *)
Lemma C7_h2s_any_heading_witness :
  is_empty (clean_text (PStr "Running shoes")) = false
  ∧ ∃ b, analyze_query_in_elements (PStr "Running shoes") shoes_page ∅
           !! "H2s" = Some b
         ∧ b = true.
Proof.
  split; [reflexivity|].
  destruct (C7_h2s_any_heading (PStr "Running shoes") shoes_page ∅ eq_refl)
    as [b [Hb Hiff]].
  exists b. split; [exact Hb|]. apply Hiff.
  exists 2%nat, (PStr "Trail  RUNNING Shoes").
  repeat split; try done; try lia.
  exists "trail ", "". reflexivity.
Defined.

(* ===================================================================== *)
(** ** Query selection                                                    *)
(* ===================================================================== *)

Section SelectionFacts.

Implicit Types (x y z : QueryRecord) (l : list QueryRecord).

Lemma key_ltb_asym x y : key_ltb x y = true → key_ltb y x = false.
Proof. unfold key_ltb. lia. Qed.

Lemma key_geb_trans x y z :
  key_ltb x y = false → key_ltb y z = false → key_ltb x z = false.
Proof. unfold key_ltb. lia. Qed.

Lemma same_keyb_not_ltb x y z :
  same_keyb z x = true → same_keyb z y = true → key_ltb x y = false.
Proof. unfold same_keyb, key_ltb. lia. Qed.

Lemma insert_desc_perm x l : insert_desc x l ≡ₚ x :: l.
Proof.
  induction l as [|y l IH]; simpl; [done|].
  destruct (key_ltb x y); [|done]. rewrite IH. apply perm_swap.
Qed.

Lemma sort_desc_perm l : sort_desc l ≡ₚ l.
Proof.
  induction l as [|x l IH]; simpl; [done|].
  by rewrite insert_desc_perm, IH.
Qed.

Lemma insert_desc_ranked x l : ranked_desc l → ranked_desc (insert_desc x l).
Proof.
  unfold ranked_desc. induction 1 as [|y l Hl IH Hy]; simpl.
  - repeat constructor.
  - destruct (key_ltb x y) eqn:Hxy.
    + constructor; [done|]. rewrite insert_desc_perm.
      constructor; [by apply key_ltb_asym|done].
    + constructor; [by constructor|]. constructor; [done|].
      eapply Forall_impl; [exact Hy|]. intros z Hz.
      by eapply key_geb_trans.
Qed.

Lemma sort_desc_ranked l : ranked_desc (sort_desc l).
Proof.
  induction l as [|x l IH]; simpl; [constructor|].
  by apply insert_desc_ranked.
Qed.

(** Stability: records of equal key keep their relative order. *)
Lemma insert_desc_stable z x l :
  List.filter (same_keyb z) (insert_desc x l)
  = List.filter (same_keyb z) (x :: l).
Proof.
  induction l as [|y l IH]; [done|]. simpl insert_desc.
  destruct (key_ltb x y) eqn:Hxy; [|done].
  change (List.filter (same_keyb z) (y :: insert_desc x l))
    with (if same_keyb z y
          then y :: List.filter (same_keyb z) (insert_desc x l)
          else List.filter (same_keyb z) (insert_desc x l)).
  rewrite IH. simpl.
  destruct (same_keyb z x) eqn:Hx, (same_keyb z y) eqn:Hy; try done.
  by rewrite (same_keyb_not_ltb x y z) in Hxy.
Qed.

Lemma sort_desc_stable z l :
  List.filter (same_keyb z) (sort_desc l) = List.filter (same_keyb z) l.
Proof.
  induction l as [|x l IH]; [done|]. simpl sort_desc.
  rewrite insert_desc_stable. simpl. by rewrite IH.
Qed.

End SelectionFacts.

Section UniqueFacts.

Context {A : Type} `{EqDecision A}.
Implicit Types (x : A) (l seen : list A).

Lemma unique_go_ext seen seen' l :
  (∀ x, x ∈ seen ↔ x ∈ seen') → unique_go seen l = unique_go seen' l.
Proof.
  revert seen seen'. induction l as [|x l IH]; intros seen seen' H; [done|].
  simpl. destruct (decide (x ∈ seen)) as [Hx|Hx];
    destruct (decide (x ∈ seen')) as [Hx'|Hx']; try (by apply H in Hx);
    try (by apply H in Hx').
  - by apply IH.
  - f_equal. apply IH. intros y. rewrite !elem_of_cons. by rewrite H.
Qed.

Lemma elem_of_unique_go seen l x :
  x ∈ unique_go seen l ↔ x ∈ l ∧ x ∉ seen.
Proof.
  revert seen. induction l as [|y l IH]; intros seen; simpl.
  - rewrite elem_of_nil. tauto.
  - destruct (decide (y ∈ seen)) as [Hy|Hy].
    + rewrite IH, elem_of_cons. split; [tauto|].
      intros [[->|?] ?]; tauto.
    + rewrite !elem_of_cons, IH, elem_of_cons. split.
      * intros [->|[? ?]]; tauto.
      * intros [[->|?] ?]; [tauto|]. destruct (decide (x = y)); tauto.
Qed.

Lemma elem_of_unique l x : x ∈ unique l ↔ x ∈ l.
Proof.
  unfold unique. rewrite elem_of_unique_go, elem_of_nil. tauto.
Qed.

Lemma NoDup_unique_go seen l : NoDup (unique_go seen l).
Proof.
  revert seen. induction l as [|y l IH]; intros seen; simpl.
  - constructor.
  - destruct (decide (y ∈ seen)); [apply IH|].
    constructor; [|apply IH]. rewrite elem_of_unique_go, elem_of_cons. tauto.
Qed.

Lemma NoDup_unique l : NoDup (unique l).
Proof. apply NoDup_unique_go. Qed.

Lemma unique_go_app seen l1 l2 :
  unique_go seen (l1 ++ l2)
  = unique_go seen l1 ++ unique_go (l1 ++ seen) l2.
Proof.
  revert seen. induction l1 as [|x l1 IH]; intros seen; [done|].
  simpl. destruct (decide (x ∈ seen)) as [Hx|Hx].
  - rewrite IH. f_equal. apply unique_go_ext. intros y.
    rewrite elem_of_cons. split; [tauto|]. intros [->|?]; [|done].
    apply elem_of_app. tauto.
  - rewrite IH. simpl. do 2 f_equal. apply unique_go_ext. intros y.
    rewrite elem_of_cons, !elem_of_app, elem_of_cons. tauto.
Qed.

(** First-appearance order: the distinct values of a front part of the
    list come first, in the same order. *)
Lemma unique_take_prefix n l : unique (take n l) `prefix_of` unique l.
Proof.
  unfold unique. rewrite <- (take_drop n l) at 2. rewrite unique_go_app.
  by eexists.
Qed.

Lemma length_unique_go seen l : length (unique_go seen l) ≤ length l.
Proof.
  revert seen. induction l as [|y l IH]; intros seen; simpl; [done|].
  destruct (decide (y ∈ seen)); simpl; [specialize (IH seen)|
    specialize (IH (y :: seen))]; lia.
Qed.

Lemma length_unique l : length (unique l) ≤ length l.
Proof. apply length_unique_go. Qed.

(** A list without repetition is its own list of distinct values. *)
Lemma unique_go_NoDup seen l :
  NoDup l → (∀ x, x ∈ l → x ∉ seen) → unique_go seen l = l.
Proof.
  revert seen. induction l as [|y l IH]; intros seen Hnd Hs; [done|].
  apply NoDup_cons in Hnd as [Hy Hnd]. simpl.
  destruct (decide (y ∈ seen)) as [Hin|_].
  - destruct (Hs y); [by left|done].
  - f_equal. apply IH; [done|]. intros x Hx. rewrite elem_of_cons.
    intros [->|Hin]; [done|]. destruct (Hs x); [by right|done].
Qed.

Lemma unique_NoDup l : NoDup l → unique l = l.
Proof. intros H. apply unique_go_NoDup; [done|]. intros x _. apply not_elem_of_nil. Qed.

Lemma prefix_take_length (p l : list A) n :
  p `prefix_of` l → length p ≤ n → p `prefix_of` take n l.
Proof.
  intros [k ->] Hn. exists (take (n - length p) k).
  rewrite take_app. rewrite take_ge by done. done.
Qed.

End UniqueFacts.

(** C1.  The generator is meant to select the top ten distinct queries,
    as its comment and the name of its variable say; the code departs
    from it.  It takes the ten largest rows first and reduces their
    queries to distinct ones afterwards.  [crowded_gsc] holds ten distinct
    queries, the first of them in ten rows that outrank all others: one
    query is selected, where reducing before truncating selects ten. *)
Theorem C1_truncation_precedes_dedup :
  length (unique (Query <$> crowded_gsc)) = 10
  ∧ top_queries crowded_gsc = [Some "q0"]
  ∧ length (top_queries_spec crowded_gsc) = 10.
Proof. repeat split; by vm_compute. Qed.

(** What the selection does compute.  The rows are ranked in descending
    order of (Clicks, Impressions), rows of equal key in input order (a
    stable sort: a permutation, descending, each key class in its original
    order).  The ten top rows are taken and their queries reduced to
    distinct ones in rank order.  So at most ten queries are selected, they
    are pairwise distinct, they are exactly the queries that occur among
    the ten top rows, each placed by its highest-ranking occurrence (the
    selection is an initial part of the list that reduces all ranked rows
    to distinct queries and then keeps ten), and the two selections agree
    when the ten top rows carry pairwise distinct queries. *)
Lemma top_queries_of_ten_rows (gsc_df : list QueryRecord) :
  let ranked := sort_desc gsc_df in
  ranked ≡ₚ gsc_df
  ∧ ranked_desc ranked
  ∧ (∀ z, List.filter (same_keyb z) ranked = List.filter (same_keyb z) gsc_df)
  ∧ NoDup (top_queries gsc_df)
  ∧ length (top_queries gsc_df) ≤ 10
  ∧ (∀ q, q ∈ top_queries gsc_df ↔ q ∈ Query <$> take 10 ranked)
  ∧ top_queries gsc_df `prefix_of` top_queries_spec gsc_df
  ∧ (NoDup (Query <$> take 10 ranked) →
     top_queries gsc_df = top_queries_spec gsc_df).
Proof.
  intros ranked.
  assert (Hlen : length (top_queries gsc_df) ≤ 10).
  { unfold top_queries, nlargest. etrans; [apply length_unique|].
    rewrite length_fmap, length_take. lia. }
  assert (Hpre : top_queries gsc_df `prefix_of` top_queries_spec gsc_df).
  { unfold top_queries, top_queries_spec, nlargest.
    apply prefix_take_length; [|exact Hlen].
    rewrite fmap_take. apply unique_take_prefix. }
  split; [apply sort_desc_perm|].
  split; [apply sort_desc_ranked|].
  split; [intros z; apply sort_desc_stable|].
  split; [apply NoDup_unique|].
  split; [exact Hlen|].
  split; [intros q; apply elem_of_unique|].
  split; [exact Hpre|].
  intros Hnd. apply prefix_length_eq; [exact Hpre|].
  unfold top_queries, top_queries_spec, nlargest. fold ranked.
  rewrite (unique_NoDup (Query <$> take 10 ranked)) by done.
  rewrite length_fmap, !length_take.
  pose proof (length_unique (Query <$> ranked)) as Hu.
  rewrite length_fmap in Hu. lia.
Qed.

(* ===================================================================== *)
(** ** The scorecard generator                                            *)
(* ===================================================================== *)

Section GeneratorFacts.

Implicit Types (sf_df : list Row) (gsc_df : list QueryRecord)
  (sc : ContentMap) (query url : option string).

Lemma filter_head_find {A} (p : A → bool) (l : list A) :
  match List.filter p l with
  | x :: _ => Some x
  | [] => None
  end = List.find p l.
Proof. induction l as [|x l IH]; simpl; [done|]. by destruct (p x). Qed.

(** The first element that satisfies the test. *)
Lemma find_first {A} (p : A → bool) (l : list A) (x : A) :
  List.find p l = Some x ↔
  ∃ l1 l2, l = l1 ++ x :: l2 ∧ p x = true ∧ Forall (λ y, p y = false) l1.
Proof.
  induction l as [|y l IH]; simpl.
  - split; [done|]. intros (l1 & l2 & H & _). by destruct l1.
  - destruct (p y) eqn:Hy.
    + split.
      * intros [= ->]. by exists [], l.
      * intros (l1 & l2 & H & Hx & Hl1). destruct l1 as [|y' l1].
        -- by injection H as ->.
        -- injection H as <- _. apply Forall_cons in Hl1 as [Hy' _].
           congruence.
    + rewrite IH. split.
      * intros (l1 & l2 & -> & Hx & Hl1). exists (y :: l1), l2.
        repeat split; [done|]. by constructor.
      * intros (l1 & l2 & H & Hx & Hl1). destruct l1 as [|y' l1].
        -- injection H as -> _. congruence.
        -- injection H as <- ->. apply Forall_cons in Hl1 as [_ Hl1]. eauto.
Qed.

Lemma url_loop sf_df sc query (urls : list (option string))
    (results : list ResultRow) :
  foldl (λ (results : list ResultRow) url,
           let matching_rows :=
             List.filter (λ row, address_eqb row url) sf_df in
           match matching_rows with
           | row :: _ =>
               let element_checks :=
                 analyze_query_in_elements (cell_value query) row sc in
               (results ++ [{| r_Query := query;
                               r_URL := url;
                               r_checks := element_checks |}])%list
           | [] => results
           end) results urls
  = results ++ (urls ≫= emitted sf_df sc query).
Proof.
  revert results. induction urls as [|url urls IH]; intros results.
  - simpl. by rewrite app_nil_r.
  - simpl foldl. rewrite IH, bind_cons. unfold emitted at 2.
    rewrite <- filter_head_find.
    destruct (List.filter (λ row, address_eqb row url) sf_df);
      [done|by rewrite <- app_assoc].
Qed.

Lemma query_loop sf_df sc (f : option string → list (option string))
    (queries : list (option string)) (results : list ResultRow) :
  foldl (λ (results : list ResultRow) query,
           foldl (λ (results : list ResultRow) url,
                    let matching_rows :=
                      List.filter (λ row, address_eqb row url) sf_df in
                    match matching_rows with
                    | row :: _ =>
                        let element_checks :=
                          analyze_query_in_elements
                            (cell_value query) row sc in
                        (results ++ [{| r_Query := query;
                                        r_URL := url;
                                        r_checks := element_checks |}])%list
                    | [] => results
                    end) results (f query)) results queries
  = results ++ (queries ≫= λ query, f query ≫= emitted sf_df sc query).
Proof.
  revert results. induction queries as [|query queries IH]; intros results.
  - simpl. by rewrite app_nil_r.
  - simpl foldl. rewrite url_loop, IH, bind_cons. by rewrite <- app_assoc.
Qed.

Lemma bind_all_nil {A B} (f : A → list B) (l : list A) :
  (∀ x, f x = []) → l ≫= f = [].
Proof.
  intros H. induction l as [|x l IH]; [done|]. by rewrite bind_cons, H, IH.
Qed.

(** The two loops, as one comprehension. *)
Lemma generate_scorecard_flat web ext gsc_df sf_df scrape :
  ∃ sc,
    generate_scorecard web ext gsc_df sf_df scrape
    = top_queries gsc_df ≫= λ query,
        query_urls gsc_df query ≫= emitted sf_df sc query.
Proof.
  unfold generate_scorecard.
  destruct gsc_df as [|r gsc_df]; [by exists ∅|].
  destruct sf_df as [|row sf_df].
  - exists ∅. simpl. symmetry. apply bind_all_nil. intros query.
    by apply bind_all_nil.
  - simpl orb. cbv iota. eexists. by rewrite query_loop.
Qed.

Lemma elem_of_emitted sf_df sc query url (r : ResultRow) :
  r ∈ emitted sf_df sc query url ↔
  ∃ row, List.find (λ row, address_eqb row url) sf_df = Some row
         ∧ r = {| r_Query := query; r_URL := url;
                  r_checks := analyze_query_in_elements
                                (cell_value query) row sc |}.
Proof.
  unfold emitted.
  destruct (List.find (λ row, address_eqb row url) sf_df) as [row|].
  - rewrite list_elem_of_singleton. split; [by eauto|].
    by intros [row' [[= <-] ->]].
  - rewrite elem_of_nil. split; [done|]. by intros [row' [? _]].
Qed.

Lemma elem_of_query_urls gsc_df query url :
  url ∈ query_urls gsc_df query ↔
  ∃ r, r ∈ gsc_df ∧ cell_eqb (Query r) query = true ∧ Landing_Page r = url.
Proof.
  unfold query_urls. rewrite elem_of_unique, list_elem_of_fmap. split.
  - intros [r [-> Hr]]. apply list_elem_of_In, filter_In in Hr as [Hr Hq].
    exists r. by rewrite list_elem_of_In.
  - intros [r (Hr & Hq & <-)]. exists r. split; [done|].
    apply list_elem_of_In, filter_In. by rewrite <- list_elem_of_In.
Qed.

Lemma cell_eqb_eq (c x : option string) :
  cell_eqb c x = true ↔ ∃ s, c = Some s ∧ x = Some s.
Proof.
  destruct c as [a|], x as [b|]; simpl;
    try (split; [done|by intros [s [? ?]]]).
  rewrite String.eqb_eq. split; [intros ->; eauto|].
  by intros [s [[= ->] [= ->]]].
Qed.

Lemma address_eqb_eq (row : Row) url :
  address_eqb row url = true ↔
  ∃ u, url = Some u ∧ row !! "Address" = Some (PStr u).
Proof.
  unfold address_eqb.
  destruct (row !! "Address") as [[| a | | | |]|], url as [u|];
    try (split; [done|by intros [s [? ?]]]).
  rewrite String.eqb_eq. split; [intros ->; eauto|].
  by intros [s [[= ->] [= ->]]].
Qed.

(** URLs come in the order in which the input first shows them: those of
    a front part of the input come first. *)
Lemma query_urls_first_seen gsc_df query (n : nat) :
  query_urls (take n gsc_df) query `prefix_of` query_urls gsc_df query.
Proof.
  unfold query_urls, unique.
  rewrite <- (take_drop n gsc_df) at 2.
  rewrite List.filter_app, fmap_app, unique_go_app. by eexists.
Qed.

(** The rows of one key in a comprehension over distinct values. *)
Lemma filter_bind_NoDup {A B} `{EqDecision A}
    (f : A → list B) (P : B → bool) (k : A) (l : list A) :
  NoDup l →
  (∀ x r, r ∈ f x → P r = true → x = k) →
  List.filter P (l ≫= f)
  = if bool_decide (k ∈ l) then List.filter P (f k) else [].
Proof.
  intros Hnd Hkey. induction Hnd as [|x l Hx Hnd IH]; [done|].
  rewrite bind_cons, List.filter_app, IH.
  destruct (decide (x = k)) as [->|Hne].
  - rewrite (bool_decide_eq_true_2 (k ∈ k :: l)) by by left.
    rewrite (bool_decide_eq_false_2 (k ∈ l)) by done. by rewrite app_nil_r.
  - assert (Hnil : List.filter P (f x) = []).
    { destruct (List.filter P (f x)) as [|r rest] eqn:E; [done|].
      assert (Hr : In r (List.filter P (f x))) by (rewrite E; by left).
      apply filter_In in Hr as [Hr HP].
      apply list_elem_of_In in Hr. destruct Hne. by eapply Hkey. }
    rewrite Hnil. simpl.
    rewrite (bool_decide_ext (k ∈ x :: l) (k ∈ l)); [done|].
    rewrite elem_of_cons. split; [|tauto]. intros [->|?]; done.
Qed.

End GeneratorFacts.

Lemma analyze_dom (query : pyval) (row : Row) (sc : ContentMap) :
  is_empty (clean_text query) = false →
  Forall (λ col, is_Some (row !! col)) required_sf_cols →
  dom (analyze_query_in_elements query row sc) = five_fields.
Proof.
  intros Hq Hcols. unfold required_sf_cols in Hcols.
  apply Forall_cons in Hcols as [_ Hcols].
  apply Forall_cons in Hcols as [[c1 H1] Hcols].
  apply Forall_cons in Hcols as [[c2 H2] Hcols].
  apply Forall_cons in Hcols as [[c3 H3] _].
  unfold analyze_query_in_elements. rewrite Hq.
  unfold elements_to_check. simpl foldl. rewrite H1, H2, H3.
  unfold five_fields.
  destruct (scraped_for row sc) as [content|];
    [|destruct (row !! "Post 1") as [cell|]; [destruct (notna cell)|]];
    rewrite !dom_insert_L, dom_empty_L; set_solver.
Qed.

Lemma elem_of_generate_scorecard web ext gsc_df sf_df scrape (r : ResultRow) :
  r ∈ generate_scorecard web ext gsc_df sf_df scrape →
  ∃ sc query url row,
    query ∈ top_queries gsc_df
    ∧ url ∈ query_urls gsc_df query
    ∧ List.find (λ row, address_eqb row url) sf_df = Some row
    ∧ r = {| r_Query := query; r_URL := url;
             r_checks := analyze_query_in_elements
                           (cell_value query) row sc |}.
Proof.
  destruct (generate_scorecard_flat web ext gsc_df sf_df scrape) as [sc ->].
  intros Hr. apply list_elem_of_bind in Hr as [query [Hr Hq]].
  apply list_elem_of_bind in Hr as [url [Hr Hu]].
  apply elem_of_emitted in Hr as [row [Hrow ->]].
  by exists sc, query, url, row.
Qed.

(** C3, as the specification states it, fails: for a query that
    normalizes to the empty string the matcher returns an empty mapping,
    and the generator still emits the row, which then carries none of the
    five fields. *)
Lemma C3_blank_query_row_has_no_field :
  validated [shoes_page]
  ∧ ∃ r, r ∈ generate_scorecard offline_web None blank_gsc [shoes_page] false
         ∧ r_Query r = Some "  "
         ∧ r_URL r = Some "https://x.com/p"
         ∧ r_checks r = ∅
         ∧ dom (r_checks r) ≠ five_fields.
Proof.
  split.
  - repeat constructor; by eexists.
  - exists {| r_Query := Some "  "; r_URL := Some "https://x.com/p";
              r_checks := ∅ |}.
    split; [|split; [|split; [|split]]]; try done.
    vm_compute generate_scorecard. apply list_elem_of_further.
    apply list_elem_of_here.
Qed.

(** C3, amended.  On a validated crawl export (every page carries the
    Address, Title 1, Meta Description 1 and H1-1 columns), every emitted
    row whose query has a non-empty normal form carries exactly the five
    field names Title, Meta Description, H1, H2s, Content; a row whose
    query normalizes to the empty string carries no field at all. *)
Theorem C3_fields_of_emitted_rows web ext gsc_df sf_df scrape
    (r : ResultRow) :
  validated sf_df →
  r ∈ generate_scorecard web ext gsc_df sf_df scrape →
  dom (r_checks r)
  = if is_empty (clean_text (cell_value (r_Query r))) then ∅
    else five_fields.
Proof.
  intros Hval Hr.
  apply elem_of_generate_scorecard in Hr
    as (sc & query & url & row & _ & _ & Hrow & ->). simpl.
  destruct (is_empty (clean_text (cell_value query))) eqn:Hq.
  - by rewrite analyze_empty_query, dom_empty_L.
  - apply analyze_dom; [done|].
    apply find_some in Hrow as [Hin _].
    unfold validated in Hval. rewrite Forall_forall in Hval.
    by apply Hval, list_elem_of_In.
Qed.

(** The row of the proper query of [blank_gsc] carries the five fields. *)
Lemma C3_fields_of_emitted_rows_witness :
  validated [shoes_page]
  ∧ dom (analyze_query_in_elements (PStr "Running  Shoes") shoes_page ∅)
    = five_fields.
Proof.
  assert (Hval : validated [shoes_page]).
  { repeat constructor; by eexists. }
  split; [exact Hval|].
  apply (C3_fields_of_emitted_rows offline_web None blank_gsc [shoes_page]
           false
           {| r_Query := Some "Running  Shoes";
              r_URL := Some "https://x.com/p";
              r_checks := analyze_query_in_elements
                            (PStr "Running  Shoes") shoes_page ∅ |}
           Hval).
  vm_compute generate_scorecard. apply list_elem_of_here.
Defined.

Lemma rows_of_pair_emitted sf_df (sc : ContentMap) (query url : option string) :
  rows_of_pair query url (emitted sf_df sc query url)
  = emitted sf_df sc query url.
Proof.
  unfold rows_of_pair, emitted.
  destruct (List.find (λ row, address_eqb row url) sf_df); [|done].
  simpl. by rewrite bool_decide_eq_true_2.
Qed.

Lemma rows_of_pair_generated gsc_df sf_df (sc : ContentMap)
    (query url : option string) :
  rows_of_pair query url
    (top_queries gsc_df ≫= λ query,
       query_urls gsc_df query ≫= emitted sf_df sc query)
  = if bool_decide (query ∈ top_queries gsc_df
                    ∧ url ∈ query_urls gsc_df query)
    then emitted sf_df sc query url else [].
Proof.
  unfold rows_of_pair.
  rewrite (filter_bind_NoDup _ _ query); [|apply NoDup_unique|].
  2:{ intros x r Hr HP. apply list_elem_of_bind in Hr as [u [Hr _]].
      apply elem_of_emitted in Hr as [row [_ ->]].
      apply bool_decide_eq_true in HP as [HP _]. done. }
  rewrite (filter_bind_NoDup _ _ url); [|apply NoDup_unique|].
  2:{ intros x r Hr HP. apply elem_of_emitted in Hr as [row [_ ->]].
      apply bool_decide_eq_true in HP as [_ HP]. done. }
  fold (rows_of_pair query url (emitted sf_df sc query url)).
  rewrite rows_of_pair_emitted.
  destruct (decide (query ∈ top_queries gsc_df)) as [Hq|Hq];
    destruct (decide (url ∈ query_urls gsc_df query)) as [Hu|Hu].
  - by rewrite !bool_decide_eq_true_2.
  - rewrite (bool_decide_eq_false_2 (url ∈ _)) by done.
    rewrite (bool_decide_eq_false_2 (_ ∧ _)) by tauto.
    by destruct (bool_decide _).
  - rewrite (bool_decide_eq_false_2 (query ∈ _)) by done.
    by rewrite (bool_decide_eq_false_2 (_ ∧ _)) by tauto.
  - rewrite (bool_decide_eq_false_2 (query ∈ _)) by done.
    by rewrite (bool_decide_eq_false_2 (_ ∧ _)) by tauto.
Qed.

(** C6.  The generated rows are, in this order: for each selected query in
    rank order, for each of its distinct landing pages in the order in
    which the input first shows them, the one row decided by the FIRST
    page of the crawl export whose Address is that URL as a string; a URL
    that no page carries yields no row.  The selected queries are pairwise
    distinct and so are the URLs of a query, so a (query, URL) pair has
    exactly one row when a page matches and none otherwise. *)
Theorem C6_rows_follow_the_loops web ext gsc_df sf_df scrape :
  ∃ sc : ContentMap,
    let out := generate_scorecard web ext gsc_df sf_df scrape in
    out = (top_queries gsc_df ≫= λ query,
             query_urls gsc_df query ≫= λ url,
               match List.find (λ row, address_eqb row url) sf_df with
               | Some row =>
                   [ {| r_Query := query; r_URL := url;
                        r_checks := analyze_query_in_elements
                                      (cell_value query) row sc |} ]
               | None => []
               end)
    ∧ NoDup (top_queries gsc_df)
    ∧ (∀ query, NoDup (query_urls gsc_df query))
    ∧ (∀ query url,
         url ∈ query_urls gsc_df query ↔
         ∃ r, r ∈ gsc_df ∧ cell_eqb (Query r) query = true
              ∧ Landing_Page r = url)
    ∧ (∀ query (n : nat),
         query_urls (take n gsc_df) query `prefix_of` query_urls gsc_df query)
    ∧ (∀ (row : Row) url,
         address_eqb row url = true ↔
         ∃ u, url = Some u ∧ row !! "Address" = Some (PStr u))
    ∧ (∀ url (row : Row),
         List.find (λ row, address_eqb row url) sf_df = Some row ↔
         ∃ l1 l2, sf_df = l1 ++ row :: l2
                  ∧ address_eqb row url = true
                  ∧ Forall (λ r, address_eqb r url = false) l1)
    ∧ (∀ query url,
         length (rows_of_pair query url out)
         = if bool_decide
                (query ∈ top_queries gsc_df
                 ∧ url ∈ query_urls gsc_df query
                 ∧ is_Some (List.find (λ row, address_eqb row url) sf_df))
           then 1 else 0).
Proof.
  destruct (generate_scorecard_flat web ext gsc_df sf_df scrape) as [sc Hout].
  exists sc. intros out. subst out. rewrite Hout.
  split; [done|].
  split; [apply NoDup_unique|].
  split; [intros query; apply NoDup_unique|].
  split; [apply elem_of_query_urls|].
  split; [intros query n; apply query_urls_first_seen|].
  split; [apply address_eqb_eq|].
  split; [intros url row;
          apply (find_first (λ row : Row, address_eqb row url))|].
  intros query url. rewrite rows_of_pair_generated. unfold emitted.
  destruct (decide (query ∈ top_queries gsc_df
                    ∧ url ∈ query_urls gsc_df query)) as [H|H].
  - rewrite (bool_decide_eq_true_2 _ H).
    destruct (List.find (λ row, address_eqb row url) sf_df) as [row|].
    + rewrite bool_decide_eq_true_2; [done|]. by destruct H.
    + rewrite bool_decide_eq_false_2; [done|].
      intros (_ & _ & [x Hx]). done.
  - rewrite (bool_decide_eq_false_2 _ H).
    rewrite bool_decide_eq_false_2; [done|]. tauto.
Qed.

Lemma analyze_query_normalized (query : pyval) (row : Row) (sc : ContentMap) :
  analyze_query_in_elements query row sc
  = analyze_query_in_elements (PStr (clean_text query)) row sc.
Proof. unfold analyze_query_in_elements. by rewrite clean_text_idem. Qed.

(** C10.  The Query of every emitted row is the raw query string of a
    record of the analytics export, casing and whitespace untouched.  The
    matcher normalizes on its own: its answer for a query is its answer for
    the normalized query.  So the Query of a row can differ from the text
    that was matched: the row for "Running  Shoes" is matched as
    "running shoes". *)
Theorem C10_rows_carry_the_raw_query :
  (∀ web ext gsc_df sf_df scrape (r : ResultRow),
     r ∈ generate_scorecard web ext gsc_df sf_df scrape →
     ∃ (rec : QueryRecord) (raw : string) (page : Row) (sc : ContentMap),
       rec ∈ gsc_df ∧ Query rec = Some raw ∧ r_Query r = Some raw
       ∧ r_URL r = Landing_Page rec ∧ page ∈ sf_df
       ∧ r_checks r = analyze_query_in_elements (PStr raw) page sc)
  ∧ (∀ (query : pyval) (row : Row) (sc : ContentMap),
       analyze_query_in_elements query row sc
       = analyze_query_in_elements (PStr (clean_text query)) row sc)
  ∧ (∃ r, r ∈ generate_scorecard offline_web None blank_gsc [shoes_page]
                false
          ∧ r_Query r = Some "Running  Shoes"
          ∧ clean_text (PStr "Running  Shoes") = "running shoes"
          ∧ r_checks r
            = analyze_query_in_elements (PStr "running shoes") shoes_page ∅).
Proof.
  split; [|split].
  - intros web ext gsc_df sf_df scrape r Hr.
    apply elem_of_generate_scorecard in Hr
      as (sc & query & url & row & _ & Hu & Hrow & ->).
    apply elem_of_query_urls in Hu as (rec & Hrec & Hq & <-).
    apply cell_eqb_eq in Hq as (raw & Hraw & ->).
    apply find_some in Hrow as [Hin _]. apply list_elem_of_In in Hin.
    by exists rec, raw, row, sc.
  - apply analyze_query_normalized.
  - exists {| r_Query := Some "Running  Shoes";
              r_URL := Some "https://x.com/p";
              r_checks := analyze_query_in_elements
                            (PStr "running shoes") shoes_page ∅ |}.
    split; [|done]. vm_compute generate_scorecard. apply list_elem_of_here.
Qed.

(* ===================================================================== *)
(** ** The content extractor                                              *)
(* ===================================================================== *)

Section ExtractorFacts.

Variables (web : Web) (self : ContentExtractor).

Lemma extract_attempts_raised (url : string) (n start : nat) :
  (∀ k, start ≤ k < start + n → respond web url k = Raised) →
  extract_attempts web self url (seq start n) = None.
Proof.
  revert start. induction n as [|n IH]; intros start H; [done|].
  simpl. rewrite H by lia. destruct (start =? max_retries self); [done|].
  apply IH. intros k Hk. apply H. lia.
Qed.

Lemma extract_attempts_answer (url : string) (n start k : nat)
    (content : option string) :
  start ≤ k < start + n →
  k ≤ max_retries self →
  (∀ j, start ≤ j < k → respond web url j = Raised) →
  respond web url k = Extracted content →
  extract_attempts web self url (seq start n)
  = match content with
    | Some text => if is_empty text then None else Some (strip text)
    | None => None
    end.
Proof.
  revert start. induction n as [|n IH]; intros start Hk Hmax Hj Hans; [lia|].
  simpl. destruct (decide (start = k)) as [->|Hne].
  - by rewrite Hans.
  - rewrite Hj by lia.
    destruct (start =? max_retries self) eqn:E.
    + apply Nat.eqb_eq in E. lia.
    + apply IH; [lia|done| |done]. intros j Hjk. apply Hj. lia.
Qed.

Lemma resolution_fails_entry (url : string) :
  resolution_fails web self url →
  extract_from_url web self url = None
  ∨ extract_from_url web self url = Some "".
Proof.
  unfold extract_from_url. intros [Hv|[Hall|(k & Hk & Hj & Hans)]].
  - left. by rewrite Hv.
  - left. destruct (negb (is_valid_url web url)); [done|].
    apply extract_attempts_raised. intros k Hk. apply Hall. lia.
  - destruct (negb (is_valid_url web url)); [by left|].
    destruct Hans as [Hans|(text & Hans & Hblank)].
    + left. rewrite (extract_attempts_answer url _ 0 k None);
        [done|lia|done| |done].
      intros j Hjk. apply Hj. lia.
    + rewrite (extract_attempts_answer url _ 0 k (Some text));
        [|lia|done| |done].
      * destruct text as [|c text]; [by left|]. right.
        change (is_empty (String c text)) with false. cbv iota.
        by rewrite Hblank.
      * intros j Hjk. apply Hj. lia.
Qed.

Lemma batch_loop_lookup (urls : list string) (d : ContentMap) (v : string) :
  foldl (λ (d : ContentMap) url, <[url := extract_from_url web self url]> d)
        d urls !! v
  = if bool_decide (v ∈ urls) then Some (extract_from_url web self v)
    else d !! v.
Proof.
  revert d. induction urls as [|u urls IH]; intros d; [done|].
  simpl foldl. rewrite IH.
  destruct (decide (v ∈ urls)) as [Hv|Hv].
  - rewrite bool_decide_eq_true_2 by done.
    by rewrite bool_decide_eq_true_2 by by right.
  - rewrite (bool_decide_eq_false_2 (v ∈ urls)) by done.
    destruct (decide (u = v)) as [->|Hne].
    + rewrite lookup_insert_eq. by rewrite bool_decide_eq_true_2 by by left.
    + rewrite lookup_insert_ne by done.
      rewrite bool_decide_eq_false_2; [done|].
      rewrite elem_of_cons. intros [->|?]; done.
Qed.

Lemma batch_extract_lookup (urls : list string) (v : string) :
  batch_extract web self urls !! v
  = if bool_decide (v ∈ urls) then Some (extract_from_url web self v)
    else None.
Proof. unfold batch_extract. by rewrite batch_loop_lookup, lookup_empty. Qed.

End ExtractorFacts.

Lemma analyze_scraped_for (query : pyval) (row : Row) (sc sc' : ContentMap) :
  scraped_for row sc = scraped_for row sc' →
  analyze_query_in_elements query row sc
  = analyze_query_in_elements query row sc'.
Proof. unfold analyze_query_in_elements. by intros ->. Qed.

Lemma scraped_for_no_text (row : Row) (sc : ContentMap) (url : string) :
  row !! "Address" = Some (PStr url) →
  (sc !! url = Some None ∨ sc !! url = Some (Some "") ∨ sc !! url = None) →
  scraped_for row sc = None.
Proof.
  intros Hrow Hsc. unfold scraped_for. rewrite Hrow.
  destruct (negb (is_empty url) && negb (bool_decide (sc = ∅))); [|done].
  by destruct Hsc as [-> | [-> | ->]].
Qed.

(** C8, against the claim.  A URL whose resolution fails is not absent
    from the content map: [batch_extract] keeps it as a key.  On
    [flaky_web] every attempt for the first page raises and the dict maps
    the page to [None]; on [blank_web] the extraction gives white space
    only, the stripped text is empty, and the dict maps the page to the
    empty string. *)
Lemma C8_failed_url_stays_a_key :
  resolution_fails flaky_web {| max_retries := 2 |} "https://x.com/p"
  ∧ batch_extract flaky_web {| max_retries := 2 |}
      ["https://x.com/p"; "https://x.com/q"] !! "https://x.com/p"
    = Some None
  ∧ "https://x.com/p"
    ∈ dom (batch_extract flaky_web {| max_retries := 2 |}
             ["https://x.com/p"; "https://x.com/q"])
  ∧ resolution_fails blank_web {| max_retries := 2 |} "https://x.com/p"
  ∧ batch_extract blank_web {| max_retries := 2 |} ["https://x.com/p"]
    = {[ "https://x.com/p" := Some "" ]}.
Proof.
  assert (Hentry : batch_extract flaky_web {| max_retries := 2 |}
            ["https://x.com/p"; "https://x.com/q"] !! "https://x.com/p"
          = Some None) by reflexivity.
  split; [|split; [exact Hentry|split; [|split]]].
  - right. left. intros k _. reflexivity.
  - apply elem_of_dom. rewrite Hentry. by eexists.
  - right. right. exists 0. split; [simpl; lia|]. split; [lia|].
    right. exists "   ". by split.
  - reflexivity.
Qed.

(** C8.  When the resolution of a URL of the batch fails (no valid URL,
    every attempt raises a network error, an error status or a timeout, or
    the extraction gives nothing or white space only), [batch_extract]
    still returns a dict, and the URL is one of its keys: it is mapped to
    [None], or to the empty string when the extracted text was white
    space.  Every URL of the batch has the entry of its own extraction,
    whatever became of the others.  For a page at the failed URL the
    matcher decides every field, Content included, as it does without any
    scraped content: from the crawl export's Post 1. *)
Theorem C8_failed_resolution_is_absorbed (web : Web)
    (self : ContentExtractor) (urls : list string) (u : string) :
  u ∈ urls →
  resolution_fails web self u →
  (batch_extract web self urls !! u = Some None
   ∨ batch_extract web self urls !! u = Some (Some ""))
  ∧ u ∈ dom (batch_extract web self urls)
  ∧ (∀ v, v ∈ urls →
       batch_extract web self urls !! v
       = Some (extract_from_url web self v))
  ∧ (∀ (query : pyval) (row : Row),
       row !! "Address" = Some (PStr u) →
       analyze_query_in_elements query row (batch_extract web self urls)
       = analyze_query_in_elements query row ∅).
Proof.
  intros Hu Hfail.
  assert (Hentry : batch_extract web self urls !! u = Some None
                   ∨ batch_extract web self urls !! u = Some (Some "")).
  { rewrite batch_extract_lookup, bool_decide_eq_true_2 by done.
    destruct (resolution_fails_entry web self u Hfail) as [-> | ->];
      [by left|by right]. }
  split; [exact Hentry|]. split; [|split].
  - apply elem_of_dom. destruct Hentry as [-> | ->]; by eexists.
  - intros v Hv. by rewrite batch_extract_lookup, bool_decide_eq_true_2.
  - intros query row Hrow. apply analyze_scraped_for.
    rewrite (scraped_for_no_text row (batch_extract web self urls) u);
      [|done|tauto].
    rewrite (scraped_for_no_text row ∅ u); [done|done|].
    right. right. apply lookup_empty.
Qed.

(** On [flaky_web] the first page fails on every attempt and the second
    one resolves. *)
Lemma C8_failed_resolution_is_absorbed_witness :
  "https://x.com/p" ∈ ["https://x.com/p"; "https://x.com/q"]
  ∧ resolution_fails flaky_web {| max_retries := 2 |} "https://x.com/p"
  ∧ "https://x.com/p"
    ∈ dom (batch_extract flaky_web {| max_retries := 2 |}
             ["https://x.com/p"; "https://x.com/q"])
  ∧ batch_extract flaky_web {| max_retries := 2 |}
      ["https://x.com/p"; "https://x.com/q"] !! "https://x.com/q"
    = Some (Some "Running shoes").
Proof.
  assert (Hin : "https://x.com/p" ∈ ["https://x.com/p"; "https://x.com/q"]).
  { apply list_elem_of_here. }
  assert (Hfail : resolution_fails flaky_web {| max_retries := 2 |}
                    "https://x.com/p").
  { right. left. intros k _. reflexivity. }
  destruct (C8_failed_resolution_is_absorbed flaky_web {| max_retries := 2 |}
              ["https://x.com/p"; "https://x.com/q"] "https://x.com/p"
              Hin Hfail) as (_ & Hkey & Hothers & _).
  split; [exact Hin|]. split; [exact Hfail|]. split; [exact Hkey|].
  rewrite Hothers; [reflexivity|].
  apply list_elem_of_further, list_elem_of_here.
Defined.

(* ===================================================================== *)
(** ** The metrics aggregator                                             *)
(* ===================================================================== *)

Section MetricsFacts.

Implicit Types (df : list ResultRow) (e : string) (m : gmap string pynum).

Lemma column_values_cons (r : ResultRow) df e :
  column_values (r :: df) e
  = match r_checks r !! e with
    | Some b => b :: column_values df e
    | None => column_values df e
    end.
Proof. reflexivity. Qed.

Lemma rows_with_cons (r : ResultRow) df e (b : bool) :
  rows_with (r :: df) e b
  = (if bool_decide (r_checks r !! e = Some b) then 1 else 0)
    + rows_with df e b.
Proof. unfold rows_with. simpl. by case_bool_decide. Qed.

Lemma column_values_counts df e :
  length (List.filter id (column_values df e)) = rows_with df e true
  ∧ length (column_values df e)
    = rows_with df e true + rows_with df e false.
Proof.
  induction df as [|r df [IH1 IH2]]; [done|].
  rewrite !rows_with_cons, column_values_cons.
  destruct (r_checks r !! e) as [[]|] eqn:E;
    repeat case_bool_decide; try congruence; simpl;
    rewrite ?IH1, ?IH2; split; lia.
Qed.

Lemma has_column_counts df e :
  has_column df e = negb (rows_with df e true + rows_with df e false =? 0).
Proof.
  unfold has_column.
  destruct (column_values_counts df e) as [_ <-].
  by destruct (column_values df e).
Qed.

Lemma rows_with_all df e :
  Forall (λ r, is_Some (r_checks r !! e)) df →
  rows_with df e true + rows_with df e false = length df.
Proof.
  induction 1 as [|r df [b Hb] _ IH]; [done|].
  rewrite !rows_with_cons, Hb.
  destruct b; repeat case_bool_decide; try congruence; simpl; lia.
Qed.

Lemma mean_counts df e :
  mean (column_values df e)
  = PrimFloat.div
      (float_of_Z (Z.of_nat (rows_with df e true)))
      (float_of_Z (Z.of_nat (rows_with df e true + rows_with df e false))).
Proof.
  unfold mean. by destruct (column_values_counts df e) as [-> ->].
Qed.

Lemma coverage_percentage df e :
  py_mul (NFloat (mean (column_values df e))) (NInt 100)
  = NFloat (percentage (rows_with df e true)
              (rows_with df e true + rows_with df e false)).
Proof. unfold percentage. by rewrite <- mean_counts. Qed.

Lemma coverage_loop_other df (els : list string) m (k : string) :
  k ∉ coverage_key <$> els →
  foldl (λ (metrics : gmap string pynum) element,
           if has_column df element
           then <[coverage_key element :=
                    py_mul (NFloat (mean (column_values df element)))
                           (NInt 100)]> metrics
           else metrics) m els !! k
  = m !! k.
Proof.
  revert m. induction els as [|x els IH]; intros m Hk; [done|].
  rewrite fmap_cons, not_elem_of_cons in Hk. destruct Hk as [Hx Hk].
  simpl foldl. rewrite IH by done.
  destruct (has_column df x); [|done]. by rewrite lookup_insert_ne.
Qed.

Lemma coverage_loop_lookup df (els : list string) m e :
  NoDup (coverage_key <$> els) →
  e ∈ els →
  foldl (λ (metrics : gmap string pynum) element,
           if has_column df element
           then <[coverage_key element :=
                    py_mul (NFloat (mean (column_values df element)))
                           (NInt 100)]> metrics
           else metrics) m els !! coverage_key e
  = if has_column df e
    then Some (py_mul (NFloat (mean (column_values df e))) (NInt 100))
    else m !! coverage_key e.
Proof.
  revert m. induction els as [|x els IH]; intros m Hnd He.
  { by apply elem_of_nil in He. }
  rewrite fmap_cons in Hnd. apply NoDup_cons in Hnd as [Hx Hnd].
  simpl foldl. destruct (decide (e ∈ els)) as [Hin|Hin].
  - rewrite IH by done. destruct (has_column df e); [done|].
    destruct (has_column df x); [|done].
    rewrite lookup_insert_ne; [done|]. intros Heq. apply Hx.
    rewrite Heq. apply list_elem_of_fmap. eauto.
  - apply elem_of_cons in He as [->|He]; [|done].
    rewrite coverage_loop_other by done.
    destruct (has_column df x); [|done]. by rewrite lookup_insert_eq.
Qed.

Lemma coverage_keys_NoDup : NoDup (coverage_key <$> elements).
Proof.
  apply (bool_decide_unpack _). by vm_compute.
Qed.

End MetricsFacts.

Section Rounding.

Import PrimFloat.

(** One row in three: the mean is rounded, and so is its product with
    100.  The result, 33.33333333333333, is the binary64 number below the
    one nearest to 100/3, which the single division of 100 by 3 gives. *)
Lemma percentage_one_in_three :
  percentage 1 3 = 0x1.0aaaaaaaaaaaap+5%float
  ∧ PrimFloat.div (float_of_Z 100) (float_of_Z 3)
    = 0x1.0aaaaaaaaaaabp+5%float.
Proof. split; vm_compute; reflexivity. Qed.

End Rounding.

(** C4, against the claim.  On the two rows generated from [blank_gsc]
    Content is true in one row of two, which makes 50 as the specification
    computes it; but the row of the blank query carries no Content cell,
    the mean skips it, and the code reports 100. *)
Lemma C4_coverage_skips_rows_without_the_field :
  let df := generate_scorecard offline_web None blank_gsc [shoes_page] false in
  length df = 2
  ∧ rows_with df "Content" true = 1
  ∧ rows_with df "Content" false = 0
  ∧ calculate_metrics df !! "content_coverage"
    = Some (NFloat (float_of_Z 100))
  ∧ percentage 1 2 = float_of_Z 50
  ∧ float_of_Z 100 ≠ float_of_Z 50.
Proof.
  intros df. repeat split; try (vm_compute; reflexivity).
  vm_compute. discriminate.
Qed.

Section MetricsLookups.

Implicit Types (df : list ResultRow) (e : string) (r : ResultRow).

Lemma elements_cases e :
  e ∈ elements →
  e = "Title" ∨ e = "Meta Description" ∨ e = "H1" ∨ e = "H2s"
  ∨ e = "Content".
Proof.
  unfold elements. rewrite !elem_of_cons, elem_of_nil. tauto.
Qed.

Lemma coverage_key_fresh e :
  e ∈ elements →
  coverage_key e ≠ "overall_score" ∧ coverage_key e ≠ "total_urls"
  ∧ coverage_key e ≠ "total_queries".
Proof.
  intros He. apply elements_cases in He.
  destruct He as [-> | [-> | [-> | [-> | ->]]]]; vm_compute; repeat split;
    discriminate.
Qed.

Lemma calculate_metrics_coverage r df e :
  e ∈ elements →
  calculate_metrics (r :: df) !! coverage_key e
  = if has_column (r :: df) e
    then Some (py_mul (NFloat (mean (column_values (r :: df) e)))
                      (NInt 100))
    else None.
Proof.
  intros He. destruct (coverage_key_fresh e He) as (Ho & Hu & Hq).
  unfold calculate_metrics. simpl is_nil. cbv iota.
  rewrite lookup_insert_ne by done.
  rewrite coverage_loop_lookup by (done || apply coverage_keys_NoDup).
  destruct (has_column (r :: df) e); [done|].
  by rewrite !lookup_insert_ne, lookup_empty by done.
Qed.

Lemma calculate_metrics_score r df e :
  e ∈ elements →
  get_default (calculate_metrics (r :: df)) (coverage_key e)
  = get_default
      (foldl (λ (metrics : gmap string pynum) element,
                if has_column (r :: df) element
                then <[coverage_key element :=
                         py_mul (NFloat (mean (column_values (r :: df)
                                                 element)))
                                (NInt 100)]>
                       metrics
                else metrics)
             (<["total_urls" :=
                  NInt (Z.of_nat (nunique (r_URL <$> r :: df)))]>
                (<["total_queries" :=
                     NInt (Z.of_nat (nunique (r_Query <$> r :: df)))]>
                   ∅))
             elements)
      (coverage_key e).
Proof.
  intros He. destruct (coverage_key_fresh e He) as (Ho & _ & _).
  unfold get_default, calculate_metrics. simpl is_nil. cbv iota.
  by rewrite lookup_insert_ne by done.
Qed.

Lemma calculate_metrics_overall r df :
  let m := calculate_metrics (r :: df) in
  m !! "overall_score"
  = Some (py_truediv
            (py_sum [get_default m (coverage_key "Title");
                     get_default m (coverage_key "Meta Description");
                     get_default m (coverage_key "H1");
                     get_default m (coverage_key "H2s");
                     get_default m (coverage_key "Content")])
            (NInt 5)).
Proof.
  intros m. subst m.
  rewrite !calculate_metrics_score
    by (unfold elements; rewrite !elem_of_cons; tauto).
  unfold calculate_metrics at 1. simpl is_nil. cbv iota.
  by rewrite lookup_insert_eq.
Qed.

End MetricsLookups.

(** C4, amended.  Without rows the result is the empty dict: it has no
    overall score.  With rows, the coverage of each of the five fields is
    the binary64 quotient of the number of rows in which the field is true
    by the number of rows that carry the field, times 100 (for a field
    that every row carries the divisor is the number of all rows); a field
    that no row carries gets no coverage entry and counts as the integer
    0; the overall score is the sum of the five coverages, added in the
    order of the fields from the integer 0, divided by 5. *)
Theorem C4_coverage_and_overall_score (df : list ResultRow) :
  let m := calculate_metrics df in
  let score e := get_default m (coverage_key e) in
  if is_nil df
  then m = ∅ ∧ m !! "overall_score" = None
  else
    (∀ e, e ∈ elements →
       let t := rows_with df e true in
       let p := t + rows_with df e false in
       if p =? 0 then m !! coverage_key e = None ∧ score e = NInt 0
       else m !! coverage_key e = Some (NFloat (percentage t p))
            ∧ score e = NFloat (percentage t p))
    ∧ (∀ e, Forall (λ r, is_Some (r_checks r !! e)) df →
         rows_with df e true + rows_with df e false = length df)
    ∧ m !! "overall_score"
      = Some (py_truediv
                (py_sum [score "Title"; score "Meta Description";
                         score "H1"; score "H2s"; score "Content"])
                (NInt 5)).
Proof.
  intros m score. destruct df as [|r df]; [done|]. simpl is_nil. cbv iota.
  split; [|split].
  - intros e He t p. subst t p score m. unfold get_default.
    rewrite calculate_metrics_coverage, has_column_counts by done.
    destruct (rows_with (r :: df) e true + rows_with (r :: df) e false =? 0)
      eqn:E; cbn [negb default]; [done|].
    by rewrite coverage_percentage.
  - apply rows_with_all.
  - apply calculate_metrics_overall.
Qed.

(* ===================================================================== *)
(** ** Further properties of the text normalizer and the field matcher    *)
(* ===================================================================== *)

Section NormalizerMore.

Implicit Types (s w : string) (ws : list string).

Lemma split_nil_iff s : split s = [] ↔ lstrip s = "".
Proof.
  unfold split. induction s as [|c s IH]; [done|]. simpl.
  destruct (is_space c) eqn:Hc; [exact IH|]. split; [|done].
  intros H. by apply split_go_acc_nonnil in H.
Qed.

Lemma join_words_empty ws :
  Forall is_word ws → is_empty (join " " ws) = true ↔ ws = [].
Proof.
  intros Hws. destruct Hws as [|w ws [He _] _]; [done|].
  split; [|done]. destruct ws; [simpl; by rewrite He|].
  by rewrite join_cons2, is_empty_app, He.
Qed.

Lemma lstrip_id s : starts_space s = false → lstrip s = s.
Proof. destruct s as [|c s]; [done|]. simpl. by intros ->. Qed.

Lemma strip_idem s : strip (strip s) = strip s.
Proof.
  unfold strip. rewrite (lstrip_id (rstrip (lstrip s))).
  - apply rstrip_idem.
  - apply rstrip_starts, lstrip_starts.
Qed.

Lemma clean_text_as_words (x : pyval) :
  ∃ ws, clean_text x = join " " ws ∧ Forall is_word ws
        ∧ lower <$> ws = ws
        ∧ (ws = [] ↔ is_scalar x = false ∨ lstrip (py_str x) = "").
Proof.
  destruct (is_scalar x) eqn:Hx.
  - exists (lower <$> split (py_str x)). split; [by apply clean_text_words|].
    split; [|split].
    + apply Forall_fmap. eapply Forall_impl; [apply split_words|].
      intros w Hw. by apply is_word_lower.
    + rewrite <- list_fmap_compose. apply list_fmap_ext.
      intros _ w _. apply lower_idem.
    + rewrite <- split_nil_iff. split.
      * intros H. right. by apply fmap_nil_inv in H.
      * intros [?|H]; [done|]. by rewrite H.
  - exists []. rewrite (clean_text_nonscalar x) by done.
    repeat split; try done. by left.
Qed.

End NormalizerMore.

(** X1.  [clean_text] returns the empty string exactly when the value is
    no scalar or its text consists of whitespace only.  (These are the
    queries for which the matcher answers with an empty mapping.) *)
Theorem X1_clean_text_blank_iff (x : pyval) :
  is_empty (clean_text x) = true
  ↔ is_scalar x = false ∨ lstrip (py_str x) = "".
Proof.
  destruct (clean_text_as_words x) as (ws & -> & Hws & _ & Hnil).
  by rewrite join_words_empty.
Qed.

(** X2.  What [clean_text] returns is in normal form: trimming it,
    lower-casing it, and splitting it on whitespace and joining the words
    with single spaces each give it back.  So it has no whitespace at
    either end, no upper-case letter, and no whitespace inside but single
    spaces between words. *)
Theorem X2_clean_text_is_normal (x : pyval) :
  strip (clean_text x) = clean_text x
  ∧ lower (clean_text x) = clean_text x
  ∧ join " " (split (clean_text x)) = clean_text x
  ∧ Forall is_word (split (clean_text x)).
Proof.
  destruct (clean_text_as_words x) as (ws & -> & Hws & Hlow & _).
  split; [by apply strip_join|].
  split; [by rewrite lower_join, Hlow|].
  by rewrite split_join.
Qed.

Lemma analyze_lookup_other (query : pyval) (row : Row) (sc : ContentMap)
    (name : string) :
  name ≠ "Title" → name ≠ "Meta Description" → name ≠ "H1" →
  name ≠ "H2s" → name ≠ "Content" →
  analyze_query_in_elements query row sc !! name = None.
Proof.
  intros H1 H2 H3 H4 H5. unfold analyze_query_in_elements.
  destruct (is_empty (clean_text query)); [done|].
  unfold elements_to_check. simpl foldl.
  destruct (scraped_for row sc) as [content|];
    [|destruct (row !! "Post 1") as [cell|]; [destruct (notna cell)|]];
    destruct (row !! "Title 1") as [c1|];
    destruct (row !! "Meta Description 1") as [c2|];
    destruct (row !! "H1-1") as [c3|];
    by rewrite ?lookup_insert_ne, ?lookup_empty by done.
Qed.

(** X3.  The matcher answers with the empty mapping exactly for the
    queries whose normal form is empty; for every other query the mapping
    holds at least the H2s and Content fields. *)
Theorem X3_empty_mapping_iff_blank_query (query : pyval) (row : Row)
    (sc : ContentMap) :
  (analyze_query_in_elements query row sc = ∅
   ↔ is_empty (clean_text query) = true)
  ∧ (is_empty (clean_text query) = false
     ↔ is_Some (analyze_query_in_elements query row sc !! "H2s")
       ∧ is_Some (analyze_query_in_elements query row sc !! "Content")).
Proof.
  destruct (is_empty (clean_text query)) eqn:Hq.
  - rewrite analyze_empty_query by done. split; [done|].
    rewrite lookup_empty. split; [done|]. by intros [[? ?] _].
  - rewrite analyze_h2s, analyze_content by done. split.
    + split; [|done]. intros H.
      pose proof (analyze_h2s query row sc Hq) as Hh. rewrite H in Hh.
      by rewrite lookup_empty in Hh.
    + split; [|done]. intros _. split; by eexists.
Qed.

(** X4.  The field names of a mapping: none for a query with an empty
    normal form; otherwise H2s and Content in every case, and Title, Meta
    Description, H1 exactly when the row has the column Title 1, Meta
    Description 1, H1-1.  No other name ever occurs. *)
Theorem X4_field_names_of_a_mapping (query : pyval) (row : Row)
    (sc : ContentMap) (name : string) :
  name ∈ dom (analyze_query_in_elements query row sc)
  ↔ is_empty (clean_text query) = false
    ∧ (name = "H2s" ∨ name = "Content"
       ∨ ∃ col, (name, col) ∈ elements_to_check ∧ is_Some (row !! col)).
Proof.
  rewrite elem_of_dom.
  destruct (is_empty (clean_text query)) eqn:Hq.
  { rewrite analyze_empty_query, lookup_empty by done.
    split; [by intros [? ?]|by intros [? _]]. }
  assert (Hmain : ∀ col, (name, col) ∈ elements_to_check →
            is_Some (analyze_query_in_elements query row sc !! name)
            ↔ is_Some (row !! col)).
  { intros col Hin. rewrite (analyze_main _ _ _ name col) by done.
    destruct (row !! col); split; intros [? ?]; by eauto. }
  assert (Hcols : ∀ col, (name, col) ∈ elements_to_check →
            name = "Title" ∨ name = "Meta Description" ∨ name = "H1").
  { intros col. unfold elements_to_check.
    rewrite !elem_of_cons, elem_of_nil.
    intros [[= -> _]|[[= -> _]|[[= -> _]|[]]]]; tauto. }
  split.
  - intros Hsome. split; [done|].
    destruct (decide (name = "H2s")) as [|N1]; [tauto|].
    destruct (decide (name = "Content")) as [|N2]; [tauto|].
    right. right.
    destruct (decide (name = "Title")) as [->|N3].
    { exists "Title 1". split; [by left|]. apply Hmain; [by left|done]. }
    destruct (decide (name = "Meta Description")) as [->|N4].
    { exists "Meta Description 1". assert ((("Meta Description",
        "Meta Description 1") : string * string) ∈ elements_to_check)
        by (right; by left). split; [done|]. by apply Hmain. }
    destruct (decide (name = "H1")) as [->|N5].
    { exists "H1-1". assert ((("H1", "H1-1") : string * string)
        ∈ elements_to_check) by (right; right; by left).
      split; [done|]. by apply Hmain. }
    rewrite analyze_lookup_other in Hsome by done. by destruct Hsome.
  - intros [_ [->|[->|[col [Hin Hcol]]]]].
    + rewrite analyze_h2s by done. by eexists.
    + rewrite analyze_content by done. by eexists.
    + by apply (Hmain col).
Qed.

(** X5.  For a query whose normal form is not empty, each of Title, Meta
    Description and H1 is decided by the cell of its column Title 1, Meta
    Description 1, H1-1: without the column the mapping has no such field;
    with it, the field is true exactly when the normalized query is a
    substring of the normal form of the cell. *)
Theorem X5_main_fields (query : pyval) (row : Row) (sc : ContentMap)
    (name column : string) :
  is_empty (clean_text query) = false →
  (name, column) ∈ elements_to_check →
  match row !! column with
  | None => analyze_query_in_elements query row sc !! name = None
  | Some cell =>
      ∃ b, analyze_query_in_elements query row sc !! name = Some b
           ∧ (b = true
              ↔ substring (clean_text query) (clean_text cell))
  end.
Proof.
  intros Hq Hin. rewrite (analyze_main _ _ _ name column) by done.
  destruct (row !! column) as [cell|]; [|done].
  eexists. split; [reflexivity|].
  destruct (is_empty (clean_text cell)) eqn:He.
  - apply is_empty_true in He. rewrite He, <- contains_spec.
    by rewrite contains_in_empty.
  - apply contains_spec.
Qed.

(** The title of [shoes_page] holds the query "shoes", whatever its
    casing. *)
Lemma X5_main_fields_witness :
  is_empty (clean_text (PStr "SHOES")) = false
  ∧ (("Title", "Title 1") : string * string) ∈ elements_to_check
  ∧ ∃ b, analyze_query_in_elements (PStr "SHOES") shoes_page ∅ !! "Title"
         = Some b
         ∧ (b = true ↔ substring "shoes" "best shoes online").
Proof.
  assert (Hin : (("Title", "Title 1") : string * string) ∈ elements_to_check).
  { apply list_elem_of_here. }
  split; [reflexivity|]. split; [exact Hin|].
  exact (X5_main_fields (PStr "SHOES") shoes_page ∅ "Title" "Title 1"
           eq_refl Hin).
Defined.

(* ===================================================================== *)
(** ** Further properties of the scorecard generator                      *)
(* ===================================================================== *)

Section GeneratorMore.

Implicit Types (sf_df : list Row) (gsc_df : list QueryRecord)
  (sc : ContentMap) (query url : option string).

(** The two loops as one comprehension, with the scraped content of the
    run. *)
Lemma generate_scorecard_run web ext gsc_df sf_df scrape :
  generate_scorecard web ext gsc_df sf_df scrape
  = top_queries gsc_df ≫= λ query,
      query_urls gsc_df query
        ≫= emitted sf_df (run_scraped_content web ext gsc_df scrape) query.
Proof.
  unfold generate_scorecard.
  destruct gsc_df as [|r gsc_df]; [done|].
  destruct sf_df as [|row sf_df].
  - simpl. symmetry. apply bind_all_nil. intros query.
    by apply bind_all_nil.
  - simpl orb. cbv iota. by rewrite query_loop.
Qed.

Lemma bind_nil_iff {A B} (f : A → list B) (l : list A) :
  l ≫= f = [] ↔ ∀ x, x ∈ l → f x = [].
Proof.
  induction l as [|x l IH].
  - split; [|done]. intros _ y Hy. by apply elem_of_nil in Hy.
  - rewrite bind_cons. split.
    + intros H. apply app_eq_nil in H as [Hx Hl]. intros y Hy.
      apply elem_of_cons in Hy as [->|Hy]; [done|]. by apply IH.
    + intros H. rewrite (H x) by by left. simpl. apply IH.
      intros y Hy. apply H. by right.
Qed.

Lemma fmap_bind_list {A B C} (g : B → C) (f : A → list B) (l : list A) :
  g <$> (l ≫= f) = l ≫= λ x, g <$> f x.
Proof.
  induction l as [|x l IH]; [done|].
  by rewrite !bind_cons, fmap_app, IH.
Qed.

Lemma NoDup_fmap_bind {A B C} (g : B → C) (f : A → list B) (l : list A) :
  NoDup l →
  (∀ x, x ∈ l → NoDup (g <$> f x)) →
  (∀ x1 x2 y1 y2, y1 ∈ f x1 → y2 ∈ f x2 → g y1 = g y2 → x1 = x2) →
  NoDup (g <$> (l ≫= f)).
Proof.
  intros Hl Hf Hinj. rewrite fmap_bind_list. apply NoDup_bind; [|done|done].
  intros x1 x2 y _ _ H1 H2.
  apply list_elem_of_fmap in H1 as [y1 [-> H1]].
  apply list_elem_of_fmap in H2 as [y2 [Heq H2]].
  by apply (Hinj x1 x2 y1 y2).
Qed.

Lemma emitted_pair sf_df sc query url (r : ResultRow) :
  r ∈ emitted sf_df sc query url → pair_of r = (query, url).
Proof. intros Hr. by apply elem_of_emitted in Hr as [row [_ ->]]. Qed.

Lemma NoDup_pairs gsc_df sf_df sc :
  NoDup (pair_of <$> (top_queries gsc_df ≫= λ query,
                        query_urls gsc_df query ≫= emitted sf_df sc query)).
Proof.
  apply NoDup_fmap_bind; [apply NoDup_unique| |].
  - intros query _. apply NoDup_fmap_bind; [apply NoDup_unique| |].
    + intros url _. unfold emitted.
      destruct (List.find _ sf_df); [apply NoDup_singleton|apply NoDup_nil_2].
    + intros u1 u2 y1 y2 H1 H2 Heq.
      apply emitted_pair in H1, H2. congruence.
  - intros q1 q2 y1 y2 H1 H2 Heq.
    apply list_elem_of_bind in H1 as [u1 [H1 _]].
    apply list_elem_of_bind in H2 as [u2 [H2 _]].
    apply emitted_pair in H1, H2. congruence.
Qed.

End GeneratorMore.

(** X6.  Every generated row joins an analytics record with a crawled
    page: its query is a selected query and the raw query of a record, its
    URL is the landing page of that record and, as a string, the Address
    of a page of the crawl export. *)
Theorem X6_rows_join_records_and_pages web ext gsc_df sf_df scrape
    (r : ResultRow) :
  r ∈ generate_scorecard web ext gsc_df sf_df scrape →
  ∃ (rec : QueryRecord) (page : Row) (q u : string),
    rec ∈ gsc_df ∧ page ∈ sf_df
    ∧ Query rec = Some q ∧ Landing_Page rec = Some u
    ∧ page !! "Address" = Some (PStr u)
    ∧ r_Query r = Some q ∧ r_URL r = Some u
    ∧ Some q ∈ top_queries gsc_df.
Proof.
  intros Hr. apply elem_of_generate_scorecard in Hr
    as (sc & query & url & row & Hq & Hu & Hrow & ->).
  apply elem_of_query_urls in Hu as (rec & Hrec & Heq & <-).
  apply cell_eqb_eq in Heq as (q & Hquery & ->).
  apply find_some in Hrow as [Hin Haddr].
  apply address_eqb_eq in Haddr as (u & Hlp & Haddr).
  apply list_elem_of_In in Hin.
  by exists rec, row, q, u.
Qed.

(** The row generated from [blank_gsc] for its first record. *)
Lemma X6_rows_join_records_and_pages_witness :
  ∃ r, r ∈ generate_scorecard offline_web None blank_gsc [shoes_page] false
       ∧ r_Query r = Some "Running  Shoes"
       ∧ ∃ page : Row, page ∈ [shoes_page]
                       ∧ page !! "Address" = Some (PStr "https://x.com/p")
                       ∧ r_URL r = Some "https://x.com/p".
Proof.
  exists {| r_Query := Some "Running  Shoes";
            r_URL := Some "https://x.com/p";
            r_checks := analyze_query_in_elements
                          (PStr "Running  Shoes") shoes_page ∅ |}.
  assert (Hin : {| r_Query := Some "Running  Shoes";
                   r_URL := Some "https://x.com/p";
                   r_checks := analyze_query_in_elements
                                 (PStr "Running  Shoes") shoes_page ∅ |}
                ∈ generate_scorecard offline_web None blank_gsc
                    [shoes_page] false).
  { vm_compute generate_scorecard. apply list_elem_of_here. }
  split; [exact Hin|]. split; [reflexivity|].
  destruct (X6_rows_join_records_and_pages _ _ _ _ _ _ Hin)
    as (rec & page & q & u & _ & Hpage & _ & _ & Haddr & _ & Hurl & _).
  simpl in Hurl. injection Hurl as <-. by exists page.
Defined.

(** X7.  No two generated rows have the same (Query, URL) pair, and there
    are never more rows than analytics records. *)
Theorem X7_rows_are_distinct_pairs web ext gsc_df sf_df scrape :
  NoDup (pair_of <$> generate_scorecard web ext gsc_df sf_df scrape)
  ∧ length (generate_scorecard web ext gsc_df sf_df scrape)
    ≤ length gsc_df.
Proof.
  assert (Hnd : NoDup (pair_of
                  <$> generate_scorecard web ext gsc_df sf_df scrape)).
  { rewrite generate_scorecard_run. apply NoDup_pairs. }
  split; [exact Hnd|].
  rewrite <- (length_fmap pair_of).
  rewrite <- (length_fmap (λ rec, (Query rec, Landing_Page rec)) gsc_df).
  apply submseteq_length, NoDup_submseteq; [exact Hnd|].
  intros [q u] Hp. apply list_elem_of_fmap in Hp as [r [Hr Hin]].
  apply elem_of_generate_scorecard in Hin
    as (sc & query & url & row & _ & Hu & _ & ->).
  injection Hr as -> ->.
  apply elem_of_query_urls in Hu as (rec & Hrec & Heq & <-).
  apply cell_eqb_eq in Heq as (s & Hs & ->).
  apply list_elem_of_fmap. exists rec. by rewrite Hs.
Qed.

(** X8.  The scorecard is empty exactly when no landing page of a
    selected query is the Address of a page of the crawl export; this
    covers an empty analytics export and an empty crawl export. *)
Theorem X8_empty_scorecard_iff web ext gsc_df sf_df scrape :
  generate_scorecard web ext gsc_df sf_df scrape = []
  ↔ ∀ query url (page : Row),
      query ∈ top_queries gsc_df → url ∈ query_urls gsc_df query →
      page ∈ sf_df → address_eqb page url = false.
Proof.
  rewrite generate_scorecard_run, bind_nil_iff. split.
  - intros H query url page Hq Hu Hpage.
    specialize (H query Hq). rewrite bind_nil_iff in H.
    specialize (H url Hu). unfold emitted in H.
    destruct (List.find (λ row, address_eqb row url) sf_df) eqn:Hf; [done|].
    apply list_elem_of_In in Hpage.
    by apply (find_none _ _ Hf).
  - intros H query Hq. apply bind_nil_iff. intros url Hu. unfold emitted.
    destruct (List.find (λ row, address_eqb row url) sf_df) as [row|] eqn:Hf;
      [|done].
    apply find_some in Hf as [Hin Haddr]. apply list_elem_of_In in Hin.
    by rewrite (H query url row) in Haddr.
Qed.

(** X9.  With scraping switched off, or without an extractor, nothing of
    the web enters the scorecard: every row is decided with no scraped
    content at all, from the crawl export alone. *)
Theorem X9_no_scraping_no_web web ext gsc_df sf_df scrape :
  generate_scorecard web ext gsc_df sf_df false
  = (top_queries gsc_df ≫= λ query,
       query_urls gsc_df query ≫= emitted sf_df ∅ query)
  ∧ generate_scorecard web None gsc_df sf_df scrape
    = (top_queries gsc_df ≫= λ query,
         query_urls gsc_df query ≫= emitted sf_df ∅ query).
Proof.
  rewrite !generate_scorecard_run. unfold run_scraped_content.
  split; [|done]. by destruct ext.
Qed.

(** X10.  With scraping switched on, every URL that gets a row has been
    resolved: the scraped content of the run maps it to the result of its
    own extraction, and the row is decided with that content. *)
Theorem X10_scraped_urls_cover_the_rows web (extractor : ContentExtractor)
    gsc_df sf_df :
  let sc := run_scraped_content web (Some extractor) gsc_df true in
  let out := generate_scorecard web (Some extractor) gsc_df sf_df true in
  out = (top_queries gsc_df ≫= λ query,
           query_urls gsc_df query ≫= emitted sf_df sc query)
  ∧ ∀ r, r ∈ out →
      ∃ u, r_URL r = Some u
           ∧ sc !! u = Some (extract_from_url web extractor u).
Proof.
  intros sc out. split; [apply generate_scorecard_run|].
  intros r Hr. apply elem_of_generate_scorecard in Hr
    as (sc' & query & url & row & Hq & Hu & Hrow & ->).
  apply find_some in Hrow as [_ Haddr].
  apply address_eqb_eq in Haddr as (u & -> & _).
  exists u. split; [done|]. subst sc. unfold run_scraped_content.
  rewrite batch_extract_lookup, bool_decide_eq_true_2; [done|].
  apply list_elem_of_omap. exists (Some u). split; [|done].
  unfold urls_to_scrape. apply elem_of_unique, list_elem_of_fmap.
  apply elem_of_query_urls in Hu as (rec & Hrec & Heq & Hlp).
  apply cell_eqb_eq in Heq as (s & Hs & ->).
  exists rec. split; [done|]. apply list_elem_of_In, filter_In.
  split; [by apply list_elem_of_In|].
  apply bool_decide_eq_true. by rewrite Hs.
Qed.

(* ===================================================================== *)
(** ** Further properties of the content extractor                        *)
(* ===================================================================== *)

Section ExtractorMore.

Variables (web : Web) (self : ContentExtractor).

Lemma extract_attempts_Some_inv (url : string) (n start : nat) (t : string) :
  extract_attempts web self url (seq start n) = Some t →
  ∃ (k : nat) (text : string),
    start ≤ k < start + n
    ∧ (∀ j, start ≤ j < k → respond web url j = Raised)
    ∧ respond web url k = Extracted (Some text)
    ∧ is_empty text = false ∧ t = strip text.
Proof.
  revert start. induction n as [|n IH]; intros start; [done|]. simpl.
  destruct (respond web url start) as [|[text|]] eqn:Hr.
  - destruct (start =? max_retries self); [done|]. intros H.
    apply IH in H as (k & text & Hk & Hj & Hans & He & ->).
    exists k, text. repeat split; try done; try lia.
    intros j Hjk. destruct (decide (j = start)) as [->|]; [done|].
    apply Hj. lia.
  - destruct (is_empty text) eqn:He; [done|]. intros [= <-].
    exists start, text. repeat split; try done; try lia.
  - done.
Qed.

End ExtractorMore.

(** X11.  [extract_from_url] returns a text exactly when the URL is valid
    and, among the attempts 0 .. max_retries, the first one that does not
    raise extracts a non-empty text; the result is that text, stripped.  In
    every other case it returns [None]: an attempt is repeated only after it
    raised, and an empty extraction is never retried. *)
Theorem X11_first_answer_decides (web : Web) (self : ContentExtractor)
    (url t : string) :
  extract_from_url web self url = Some t
  ↔ is_valid_url web url = true
    ∧ ∃ (k : nat) (text : string),
        k ≤ max_retries self
        ∧ (∀ j : nat, j < k → respond web url j = Raised)
        ∧ respond web url k = Extracted (Some text)
        ∧ text ≠ ""
        ∧ t = strip text.
Proof.
  unfold extract_from_url. split.
  - destruct (is_valid_url web url); [|done]. simpl. intros H.
    apply extract_attempts_Some_inv in H as (k & text & Hk & Hj & Hans & He & ->).
    split; [done|]. exists k, text. repeat split; try done; try lia.
    + intros j Hjk. apply Hj. lia.
    + intros ->. done.
  - intros [-> (k & text & Hk & Hj & Hans & He & ->)]. simpl.
    rewrite (extract_attempts_answer web self url _ 0 k (Some text));
      try done; try lia.
    + by destruct text.
    + intros j Hjk. apply Hj. lia.
Qed.

(** X12.  A text returned by [extract_from_url] has no whitespace at
    either end: stripping it again changes nothing. *)
Theorem X12_extracted_text_is_stripped (web : Web) (self : ContentExtractor)
    (url t : string) :
  extract_from_url web self url = Some t → strip t = t.
Proof.
  unfold extract_from_url.
  destruct (negb (is_valid_url web url)); [done|]. intros H.
  apply extract_attempts_Some_inv in H as (k & text & _ & _ & _ & _ & ->).
  apply strip_idem.
Qed.

(** On [flaky_web] the second page answers " Running shoes ". *)
Lemma X12_extracted_text_is_stripped_witness :
  extract_from_url flaky_web {| max_retries := 2 |} "https://x.com/q"
  = Some "Running shoes"
  ∧ strip "Running shoes" = "Running shoes".
Proof.
  split; [reflexivity|].
  apply (X12_extracted_text_is_stripped flaky_web {| max_retries := 2 |}
           "https://x.com/q"). reflexivity.
Defined.

(** X13.  [extract_from_url] makes at most max_retries + 1 attempts: what
    the web would answer to any later attempt has no bearing on the
    result. *)
Theorem X13_no_attempt_beyond_the_retries (web web' : Web)
    (self : ContentExtractor) (url : string) :
  urlparse web url = urlparse web' url →
  (∀ k : nat, k ≤ max_retries self →
     respond web url k = respond web' url k) →
  extract_from_url web self url = extract_from_url web' self url.
Proof.
  intros Hp Hr. unfold extract_from_url, is_valid_url. rewrite Hp.
  destruct (negb _); [done|].
  assert (Hgen : ∀ n start, start + n ≤ max_retries self + 1 →
            extract_attempts web self url (seq start n)
            = extract_attempts web' self url (seq start n)).
  { induction n as [|n IH]; intros start Hn; [done|]. simpl.
    rewrite <- Hr by lia. by rewrite IH by lia. }
  by apply Hgen.
Qed.

(** [late_web] answers only from the fourth attempt on, which an
    extractor with two retries never makes. *)
Lemma X13_no_attempt_beyond_the_retries_witness :
  respond flaky_web "https://x.com/p" 3 ≠ respond late_web "https://x.com/p" 3
  ∧ extract_from_url flaky_web {| max_retries := 2 |} "https://x.com/p"
    = extract_from_url late_web {| max_retries := 2 |} "https://x.com/p".
Proof.
  split; [discriminate|].
  apply X13_no_attempt_beyond_the_retries; [reflexivity|].
  intros k Hk. simpl in Hk.
  destruct k as [|[|[|k]]]; [reflexivity|reflexivity|reflexivity|lia].
Defined.

(** X14.  For a batch of distinct URLs, as [generate_scorecard] passes
    it, the dict of [batch_extract] has exactly the URLs of the batch as
    keys, failed ones included, one entry for each, and each entry is the
    result of the extraction of its own URL. *)
Theorem X14_batch_keys_are_the_urls (web : Web) (self : ContentExtractor)
    (urls : list string) :
  NoDup urls →
  dom (batch_extract web self urls) = list_to_set urls
  ∧ size (batch_extract web self urls) = length urls
  ∧ (∀ v c, batch_extract web self urls !! v = Some c
            ↔ v ∈ urls ∧ c = extract_from_url web self v).
Proof.
  intros Hnd.
  assert (Hdom : dom (batch_extract web self urls)
                 = (list_to_set urls : gset string)).
  { apply set_eq. intros v.
    rewrite elem_of_dom, elem_of_list_to_set, batch_extract_lookup.
    case_bool_decide as Hv; split.
    - done.
    - by eauto.
    - by intros [? ?].
    - done. }
  split; [exact Hdom|]. split.
  - rewrite <- size_dom, Hdom. by apply size_list_to_set.
  - intros v c. rewrite batch_extract_lookup.
    case_bool_decide as Hv; split.
    + by intros [= <-].
    + by intros [_ ->].
    + done.
    + by intros [? _].
Qed.

(** The two pages of [flaky_web]: the failed one is a key like the
    other. *)
Lemma X14_batch_keys_are_the_urls_witness :
  NoDup ["https://x.com/p"; "https://x.com/q"]
  ∧ size (batch_extract flaky_web {| max_retries := 2 |}
            ["https://x.com/p"; "https://x.com/q"]) = 2.
Proof.
  assert (Hnd : NoDup ["https://x.com/p"; "https://x.com/q"]).
  { apply NoDup_cons. split; [|apply NoDup_singleton].
    rewrite list_elem_of_singleton. discriminate. }
  split; [exact Hnd|].
  destruct (X14_batch_keys_are_the_urls flaky_web {| max_retries := 2 |}
              ["https://x.com/p"; "https://x.com/q"] Hnd) as (_ & Hsize & _).
  exact Hsize.
Defined.

(* ===================================================================== *)
(** ** Further properties of the metrics aggregator                       *)
(* ===================================================================== *)

Section MetricsMore.

Implicit Types (df : list ResultRow) (e : string) (r : ResultRow).

Lemma not_in_coverage_keys (k : string) :
  k = "total_queries" ∨ k = "total_urls" →
  k ∉ coverage_key <$> elements.
Proof.
  intros [-> | ->]; apply (bool_decide_unpack _); by vm_compute.
Qed.

Lemma calculate_metrics_totals r df :
  calculate_metrics (r :: df) !! "total_queries"
  = Some (NInt (Z.of_nat (nunique (r_Query <$> r :: df))))
  ∧ calculate_metrics (r :: df) !! "total_urls"
    = Some (NInt (Z.of_nat (nunique (r_URL <$> r :: df)))).
Proof.
  unfold calculate_metrics. simpl is_nil. cbv iota.
  split; rewrite lookup_insert_ne by done;
    rewrite coverage_loop_other by (apply not_in_coverage_keys; tauto).
  - by rewrite lookup_insert_ne, lookup_insert_eq.
  - by rewrite lookup_insert_eq.
Qed.

Lemma has_column_iff df e :
  has_column df e = true ↔ ∃ r, r ∈ df ∧ is_Some (r_checks r !! e).
Proof.
  unfold has_column, column_values. split.
  - destruct (omap (λ r, r_checks r !! e) df) as [|b l] eqn:E; [done|].
    intros _. assert (Hb : b ∈ omap (λ r, r_checks r !! e) df).
    { rewrite E. by left. }
    apply list_elem_of_omap in Hb as [r [Hr Hb]]. exists r. by rewrite Hb.
  - intros [r [Hr [b Hb]]].
    assert (Hin : b ∈ omap (λ r, r_checks r !! e) df).
    { apply list_elem_of_omap. by exists r. }
    by destruct (omap (λ r, r_checks r !! e) df); [apply elem_of_nil in Hin|].
Qed.

Lemma length_omap_le {A B} (f : A → option B) (l : list A) :
  length (omap f l) ≤ length l.
Proof.
  induction l as [|x l IH]; [done|].
  change (omap f (x :: l))
    with (match f x with Some y => y :: omap f l | None => omap f l end).
  destruct (f x); simpl; lia.
Qed.

Lemma nunique_le (column : list (option string)) :
  nunique column ≤ length column.
Proof.
  unfold nunique. etrans; [apply length_unique|]. apply length_omap_le.
Qed.

Lemma nunique_cons_Some (s : string) (column : list (option string)) :
  1 ≤ nunique (Some s :: column).
Proof. unfold nunique, unique. simpl. lia. Qed.

End MetricsMore.

Lemma length_top_queries (gsc_df : list QueryRecord) :
  length (top_queries gsc_df) ≤ 10.
Proof.
  unfold top_queries, nlargest. etrans; [apply length_unique|].
  rewrite length_fmap, length_take. lia.
Qed.

Lemma generated_row_strings web ext gsc_df sf_df scrape (r : ResultRow) :
  r ∈ generate_scorecard web ext gsc_df sf_df scrape →
  ∃ q u, r_Query r = Some q ∧ r_URL r = Some u
         ∧ Some q ∈ top_queries gsc_df.
Proof.
  intros Hr. apply elem_of_generate_scorecard in Hr
    as (sc & query & url & row & Hq & Hu & Hrow & ->).
  apply elem_of_query_urls in Hu as (rec & _ & Heq & _).
  apply cell_eqb_eq in Heq as (q & _ & ->).
  apply find_some in Hrow as [_ Haddr].
  apply address_eqb_eq in Haddr as (u & -> & _).
  by exists q, u.
Qed.

Lemma queries_within_selection web ext gsc_df sf_df scrape :
  let df := generate_scorecard web ext gsc_df sf_df scrape in
  nunique (r_Query <$> df) ≤ 10.
Proof.
  intros df. unfold nunique.
  rewrite <- (length_fmap Some).
  etrans; [|apply (length_top_queries gsc_df)].
  apply submseteq_length, NoDup_submseteq.
  - apply NoDup_fmap; [by intros ? ? [= ->]|]. apply NoDup_unique.
  - intros q Hq. apply list_elem_of_fmap in Hq as [s [-> Hs]].
    apply elem_of_unique, list_elem_of_omap in Hs as [o [Ho Hs]].
    simpl in Hs. subst o.
    apply list_elem_of_fmap in Ho as [r [Hr Hin]].
    apply generated_row_strings in Hin as (q & u & Hq & _ & Htop).
    congruence.
Qed.

(** X16.  For a scorecard that has rows, the metrics count its distinct
    queries and its distinct URLs: both counts are at least 1 and at most
    the number of rows, and there are never more than 10 queries.  For a
    scorecard without rows there are no metrics. *)
Theorem X16_totals_of_a_scorecard web ext gsc_df sf_df scrape :
  let df := generate_scorecard web ext gsc_df sf_df scrape in
  let m := calculate_metrics df in
  if is_nil df then m = ∅
  else ∃ nq nu : nat,
         m !! "total_queries" = Some (NInt (Z.of_nat nq))
         ∧ m !! "total_urls" = Some (NInt (Z.of_nat nu))
         ∧ nq = length (unique (omap id (r_Query <$> df)))
         ∧ nu = length (unique (omap id (r_URL <$> df)))
         ∧ 1 ≤ nq ∧ nq ≤ 10 ∧ nq ≤ length df
         ∧ 1 ≤ nu ∧ nu ≤ length df.
Proof.
  intros df m.
  pose proof (queries_within_selection web ext gsc_df sf_df scrape) as H10.
  fold df in H10. simpl in H10.
  assert (Hrows : ∀ r, r ∈ df → ∃ q u, r_Query r = Some q ∧ r_URL r = Some u).
  { intros r Hr. apply generated_row_strings in Hr as (q & u & ? & ? & _).
    by exists q, u. }
  subst m. destruct df as [|r df']; [done|]. simpl is_nil. cbv iota.
  destruct (calculate_metrics_totals r df') as [Hq Hu].
  destruct (Hrows r ltac:(by left)) as (q & u & Hrq & Hru).
  exists (nunique (r_Query <$> r :: df')), (nunique (r_URL <$> r :: df')).
  split; [done|]. split; [done|]. split; [done|]. split; [done|].
  pose proof (nunique_le (r_Query <$> r :: df')) as Hlq.
  pose proof (nunique_le (r_URL <$> r :: df')) as Hlu.
  rewrite length_fmap in Hlq, Hlu.
  pose proof (nunique_cons_Some q (r_Query <$> df')) as H1q.
  pose proof (nunique_cons_Some u (r_URL <$> df')) as H1u.
  rewrite fmap_cons, Hrq. rewrite (fmap_cons r_URL), Hru.
  rewrite fmap_cons, Hrq in Hlq, H10. rewrite fmap_cons, Hru in Hlu.
  repeat split; done.
Qed.

(** X17.  There are metrics exactly when there are rows (the caller shows
    them only then), and the metrics hold a coverage for a field exactly
    when some row carries that field. *)
Theorem X17_metrics_entries (df : list ResultRow) :
  (calculate_metrics df = ∅ ↔ df = [])
  ∧ (is_Some (calculate_metrics df !! "overall_score") ↔ df ≠ [])
  ∧ Forall (λ e, is_Some (calculate_metrics df !! coverage_key e)
                 ↔ ∃ r, r ∈ df ∧ is_Some (r_checks r !! e)) elements.
Proof.
  destruct df as [|r df].
  - split; [done|]. split.
    + unfold calculate_metrics. simpl. rewrite lookup_empty.
      split; [by intros [? ?]|done].
    + apply Forall_forall. intros e _. unfold calculate_metrics. simpl.
      rewrite lookup_empty. split; [by intros [? ?]|].
      intros [r [Hr _]]. by apply elem_of_nil in Hr.
  - pose proof (calculate_metrics_overall r df) as Hv. cbv zeta in Hv.
    split; [|split].
    + split; [|done]. intros H. by rewrite H, lookup_empty in Hv.
    + rewrite Hv. split; [done|by eexists].
    + apply Forall_forall. intros e He.
      rewrite calculate_metrics_coverage by done.
      rewrite <- has_column_iff.
      destruct (has_column (r :: df) e); split; intros H;
        try done; try (by eexists); by destruct H.
Qed.

(* ===================================================================== *)
(** ** The caller's column check                                          *)
(* ===================================================================== *)

Lemma missing_none_iff (required : gset string) (columns : list string) :
  required ∖ list_to_set columns = ∅
  ↔ ∀ c, c ∈ required → c ∈ columns.
Proof.
  split.
  - intros H c Hc. destruct (decide (c ∈ columns)) as [|Hn]; [done|].
    assert (Hin : c ∈ required ∖ list_to_set columns).
    { apply elem_of_difference. split; [done|].
      by rewrite elem_of_list_to_set. }
    rewrite H in Hin. by apply not_elem_of_empty in Hin.
  - intros H. apply set_eq. intros c.
    rewrite elem_of_difference, elem_of_list_to_set. split.
    + intros [Hc Hn]. destruct Hn. by apply H.
    + intros Hc. by apply not_elem_of_empty in Hc.
Qed.

Lemma required_sf_cols_in_set (col : string) :
  col ∈ required_sf_cols → col ∈ required_sf_set.
Proof.
  unfold required_sf_cols, required_sf_set.
  rewrite !elem_of_cons, elem_of_nil, !elem_of_union, !elem_of_singleton.
  tauto.
Qed.

(** X18.  The column check lets the analysis run exactly when each frame
    has all of its required columns, whatever other columns there are.
    Otherwise it reports, per file, exactly the required columns that are
    not there.  A crawl frame that passed the check is validated. *)
Theorem X18_column_check (gsc_columns sf_columns : list string) :
  (check_required_columns gsc_columns sf_columns = ColumnsOk
   ↔ (∀ c, c ∈ required_gsc_set → c ∈ gsc_columns)
     ∧ (∀ c, c ∈ required_sf_set → c ∈ sf_columns))
  ∧ (∀ missing_gsc missing_sf,
       check_required_columns gsc_columns sf_columns
       = MissingColumns missing_gsc missing_sf →
       (∀ c, c ∈ missing_gsc ↔ c ∈ required_gsc_set ∧ c ∉ gsc_columns)
       ∧ (∀ c, c ∈ missing_sf ↔ c ∈ required_sf_set ∧ c ∉ sf_columns)
       ∧ (missing_gsc ≠ ∅ ∨ missing_sf ≠ ∅))
  ∧ (check_required_columns gsc_columns sf_columns = ColumnsOk →
     ∀ sf_df : list Row,
       Forall (λ row : Row, ∀ c, c ∈ sf_columns → is_Some (row !! c)) sf_df →
       validated sf_df).
Proof.
  assert (Hok : check_required_columns gsc_columns sf_columns = ColumnsOk
                ↔ (∀ c, c ∈ required_gsc_set → c ∈ gsc_columns)
                  ∧ (∀ c, c ∈ required_sf_set → c ∈ sf_columns)).
  { unfold check_required_columns.
    rewrite <- !missing_none_iff.
    destruct (decide (required_gsc_set ∖ list_to_set gsc_columns = ∅)) as [Hg|Hg];
      destruct (decide (required_sf_set ∖ list_to_set sf_columns = ∅)) as [Hs|Hs].
    - rewrite !bool_decide_eq_false_2 by (intros H; by apply H). done.
    - rewrite (bool_decide_eq_true_2 (_ ∖ list_to_set sf_columns ≠ ∅)) by done.
      rewrite orb_true_r. split; [done|]. by intros [_ ?].
    - rewrite (bool_decide_eq_true_2 (_ ∖ list_to_set gsc_columns ≠ ∅)) by done.
      split; [done|]. by intros [? _].
    - rewrite (bool_decide_eq_true_2 (_ ∖ list_to_set gsc_columns ≠ ∅)) by done.
      split; [done|]. by intros [? _]. }
  split; [exact Hok|]. split.
  - intros mg ms. unfold check_required_columns.
    destruct (bool_decide _ || bool_decide _) eqn:E; [|done].
    intros [= <- <-]. split; [|split].
    + intros c. by rewrite elem_of_difference, elem_of_list_to_set.
    + intros c. by rewrite elem_of_difference, elem_of_list_to_set.
    + apply orb_true_iff in E as [E|E]; apply bool_decide_eq_true in E; tauto.
  - intros Hcheck sf_df Hrows. apply Hok in Hcheck as [_ Hsf].
    unfold validated. eapply Forall_impl; [exact Hrows|].
    intros row Hrow. apply Forall_forall. intros col Hcol.
    by apply Hrow, Hsf, required_sf_cols_in_set.
Qed.

(* ===================================================================== *)
(** ** Further properties of the query selection                          *)
(* ===================================================================== *)

Lemma ranked_desc_app (l1 l2 : list QueryRecord) (x y : QueryRecord) :
  ranked_desc (l1 ++ l2) → x ∈ l1 → y ∈ l2 → key_ltb x y = false.
Proof.
  unfold ranked_desc. induction l1 as [|z l1 IH]; intros Hs Hx Hy.
  - by apply elem_of_nil in Hx.
  - simpl in Hs. apply StronglySorted_inv in Hs as [Hs Hz].
    apply elem_of_cons in Hx as [->|Hx]; [|by apply IH].
    rewrite Forall_forall in Hz. apply Hz. apply elem_of_app. by right.
Qed.

(** X19.  With at most ten analytics rows nothing is cut off: the query of
    every row is selected. *)
Theorem X19_few_rows_all_selected (gsc_df : list QueryRecord)
    (rec : QueryRecord) :
  length gsc_df ≤ 10 → rec ∈ gsc_df → Query rec ∈ top_queries gsc_df.
Proof.
  intros Hlen Hrec. unfold top_queries, nlargest.
  rewrite take_ge by (by rewrite (Permutation_length (sort_desc_perm gsc_df))).
  apply elem_of_unique, list_elem_of_fmap. exists rec. split; [done|].
  by rewrite (sort_desc_perm gsc_df).
Qed.

(** Both queries of [blank_gsc] are selected. *)
Lemma X19_few_rows_all_selected_witness :
  length blank_gsc ≤ 10
  ∧ Some "  " ∈ top_queries blank_gsc.
Proof.
  assert (Hlen : length blank_gsc ≤ 10) by (simpl; lia).
  split; [exact Hlen|].
  apply (X19_few_rows_all_selected blank_gsc
           {| Query := Some "  "; Landing_Page := Some "https://x.com/p";
              Clicks := 10; Impressions := 100 |} Hlen).
  apply list_elem_of_further, list_elem_of_here.
Defined.

(** X20.  No row of a query that was left out ranks above a selected
    query: every selected query has a row whose (Clicks, Impressions) key
    is not below the key of that row. *)
Theorem X20_left_out_rows_rank_below (gsc_df : list QueryRecord)
    (rec : QueryRecord) (query : option string) :
  rec ∈ gsc_df → Query rec ∉ top_queries gsc_df →
  query ∈ top_queries gsc_df →
  ∃ rec', rec' ∈ gsc_df ∧ Query rec' = query ∧ key_ltb rec' rec = false.
Proof.
  intros Hrec Hout Hq. unfold top_queries, nlargest in *.
  rewrite elem_of_unique in Hq, Hout.
  apply list_elem_of_fmap in Hq as [rec' [-> Hin']].
  assert (Hsorted : rec ∈ sort_desc gsc_df).
  { by rewrite (sort_desc_perm gsc_df). }
  rewrite <- (take_drop 10 (sort_desc gsc_df)) in Hsorted.
  apply elem_of_app in Hsorted as [Htop|Hrest].
  { destruct Hout. apply list_elem_of_fmap. by exists rec. }
  exists rec'. split; [|split; [done|]].
  - rewrite <- (sort_desc_perm gsc_df).
    rewrite <- (take_drop 10 (sort_desc gsc_df)). apply elem_of_app. by left.
  - apply (ranked_desc_app (take 10 (sort_desc gsc_df))
             (drop 10 (sort_desc gsc_df))); [|done|done].
    rewrite take_drop. apply sort_desc_ranked.
Qed.

(** In [crowded_gsc] the row of "q1" is left out and ranks below the rows
    of "q0". *)
Lemma X20_left_out_rows_rank_below_witness :
  (Some "q1" ∉ top_queries crowded_gsc)
  ∧ ∃ rec', rec' ∈ crowded_gsc ∧ Query rec' = Some "q0"
            ∧ key_ltb rec' {| Query := Some "q1";
                              Landing_Page := Some "https://x.com/0";
                              Clicks := 10; Impressions := 100 |} = false.
Proof.
  assert (Hout : Some "q1" ∉ top_queries crowded_gsc).
  { apply (bool_decide_unpack _). by vm_compute. }
  split; [exact Hout|].
  apply (X20_left_out_rows_rank_below crowded_gsc
           {| Query := Some "q1"; Landing_Page := Some "https://x.com/0";
              Clicks := 10; Impressions := 100 |} (Some "q0")).
  - vm_compute crowded_gsc. do 10 apply list_elem_of_further.
    apply list_elem_of_here.
  - exact Hout.
  - apply (bool_decide_unpack _). by vm_compute.
Defined.
